(** * The commit drawer of the desktop client: selection flattening and commit assembly

    A shallow embedding of the script block of the "create commit" drawer
    component ([findHunkDiff], [createCommit], [handleCommitCreation]) and
    the properties of it that the specification states.

    The component is asynchronous glue around a handful of collaborators
    (worktree service, diff service, stack service, UI state, change
    selection, toasts).  A run is modelled as a function on a [World]: the
    reactive UI state the component reads and writes, plus the trace of
    collaborator calls and notifications it has issued so far.  A thrown
    error (or a rejected promise) is the [Throw] outcome; the world reached
    at the throw is kept, because JavaScript does not roll anything back.

    The props ([projectId], [stackId]) and the cached branch list are fixed
    during a run, and nobody else writes to the stores while the run is
    suspended at an [await]: the component is the only actor. *)

From stdpp Require Import base option list strings gmap.
From Stdlib Require Import ZArith.


(** ** Data model *)

(** [HunkHeader]: the four coordinates of a hunk. *)
Record HunkHeader := {
  oldStart : Z;
  oldLines : Z;
  newStart : Z;
  newLines : Z
}.

(** Modelled from the spec: the declaration of [LineId] is not part of the
    component, which only hands the selected lines to the translator; an
    identifier addresses one line of a hunk in old-side or new-side
    numbering. *)
Record LineId := {
  oldLine : option Z;
  newLine : option Z
}.

(** [DiffHunk = HunkHeader & { diff: string }]. *)
Record DiffHunk := {
  header :> HunkHeader;
  diff : string
}.

(** [SelectedHunk]: [HunkHeader & {type: 'full'}] or
    [HunkHeader & {type: 'partial', lines: LineId[]}]. *)
Inductive SelectedHunk :=
| HunkFull (h : HunkHeader)
| HunkPartial (h : HunkHeader) (lines : list LineId).

Definition hunkHeaderOf (hunk : SelectedHunk) : HunkHeader :=
  match hunk with
  | HunkFull h => h
  | HunkPartial h _ => h
  end.

(** The [type]-dependent part of a selected file. *)
Inductive FileSelection :=
| FullFile
| PartialFile (hunks : list SelectedHunk).

(** Modelled from the spec: the declaration of the selected-file type is not
    part of the component; a file selection is a tagged variant, [full] or
    [partial] with an ordered collection of hunk selections, and carries the
    path, its bytes and the optional previous path bytes the component
    reads. *)
Module SelectedFile.
Record t := {
  path : string;
  pathBytes : list Z;
  previousPathBytes : option (list Z);
  selection : FileSelection
}.
End SelectedFile.

(** [CreateCommitRequestWorktreeChanges]: one change entry of a request. *)
Module WorktreeChanges.
Record t := {
  pathBytes : list Z;
  previousPathBytes : option (list Z);
  hunkHeaders : list HunkHeader
}.
End WorktreeChanges.

(** The argument of [createCommitInStack]. *)
Module CommitRequest.
Record t := {
  projectId : string;
  stackId : string;
  parentId : option string;
  message : string;
  stackBranchName : string;
  worktreeChanges : list WorktreeChanges.t
}.
End CommitRequest.

(** The value [createCommitInStack] resolves to; a rejected change is a
    [(reason, path)] pair. *)
Module CommitResponse.
Record t := {
  newCommit : string;
  pathsToRejectedChanges : list (string * string)
}.
End CommitResponse.

Record Branch := { name : string }.

(** The argument of [createNewStack]: [{projectId, branch: {name}}]. *)
Module NewStackRequest.
Record t := {
  projectId : string;
  branchName : option string
}.
End NewStackRequest.

(** The value [createNewStack] resolves to. *)
Module Stack.
Record t := {
  id : string;
  heads : list Branch
}.
End Stack.

(** What [uiState.stack(id).selection] holds. *)
Module StackSelection.
Record t := {
  branchName : string;
  commitId : option string
}.
End StackSelection.

(** Modelled from the spec: the diff type is declared outside the component;
    the diff of a change is either a content patch with its hunks or some
    other kind (binary, too large, ...), which is all [findHunkDiff] looks
    at ([file.type !== 'Patch'], [file.subject.hunks]). *)
Inductive UnifiedDiff :=
| Patch (hunks : list DiffHunk)
| NotPatch (kind : string).

(** ** Outcomes *)

(** A thrown value: [new Error(message)]; the reason of a rejected call is
    represented the same way. *)
Inductive Exn := Error (message : string).

Inductive Result (A : Type) :=
| Ok (a : A)
| Throw (e : Exn).
Arguments Ok {A} a.
Arguments Throw {A} e.

(** The second argument of [showError]: a caught value or a text. *)
Inductive ErrorDetail :=
| Caught (e : Exn)
| Text (s : string).

(** ** JavaScript truthiness of an optional string *)

Definition truthy (s : option string) : bool :=
  match s with
  | Some s => negb (String.eqb s "")
  | None => false
  end.

(** [a || b] *)
Definition js_or (a b : option string) : option string :=
  if truthy a then a else b.

(** The line feed of ['\n']. *)
Definition LF : string :=
  String (Ascii.Ascii false true false true false false false false) "".

Section Component.

(** The tree change the worktree service hands to the diff service; the
    component only passes it along. *)
Context {TreeChange : Type}.

(** ** What the component observably does *)
Inductive Event :=
| NewStackCall (req : NewStackRequest.t)
| FetchChangeCall (projectId path : string)
| FetchDiffCall (projectId : string) (change : TreeChange)
| CreateCommitCall (req : CommitRequest.t)
| ShowError (title : string) (detail : ErrorDetail)
| ShowToast (message style : string).

(** ** The collaborators

    [fetchChange] and [fetchDiff] resolve to a result object whose [data]
    may be undefined; every asynchronous call may also reject.
    [lineIdsToHunkHeaders] is the synchronous translator of selected lines
    and may throw.  [branches] is the cached branch list of a stack. *)
Record Services := {
  fetchChange : string → string → Result (option TreeChange);
  fetchDiff : string → TreeChange → Result (option UnifiedDiff);
  lineIdsToHunkHeaders : list LineId → string → string → Result (list HunkHeader);
  createCommitInStack : CommitRequest.t → Result CommitResponse.t;
  createNewStack : NewStackRequest.t → Result Stack.t;
  branches : string → string → option (list Branch)
}.

(** ** Reactive state *)
Record UiState := {
  projectStackId : option string;              (* projectState.stackId *)
  draftBranchName : option string;             (* uiState.global.draftBranchName *)
  commitTitle : string;                        (* projectState.commitTitle *)
  commitDescription : string;                  (* projectState.commitDescription *)
  drawerPage : option string;                  (* projectState.drawerPage *)
  stackSelections : gmap string StackSelection.t;  (* uiState.stack(id).selection *)
  selectedChanges : list SelectedFile.t        (* changeSelection.list() *)
}.

Record World := {
  ui : UiState;
  trace : list Event
}.

Definition set_projectStackId (v : option string) (u : UiState) : UiState :=
  {| projectStackId := v; draftBranchName := draftBranchName u;
     commitTitle := commitTitle u; commitDescription := commitDescription u;
     drawerPage := drawerPage u; stackSelections := stackSelections u;
     selectedChanges := selectedChanges u |}.

Definition set_draftBranchName (v : option string) (u : UiState) : UiState :=
  {| projectStackId := projectStackId u; draftBranchName := v;
     commitTitle := commitTitle u; commitDescription := commitDescription u;
     drawerPage := drawerPage u; stackSelections := stackSelections u;
     selectedChanges := selectedChanges u |}.

Definition set_commitTitle (v : string) (u : UiState) : UiState :=
  {| projectStackId := projectStackId u; draftBranchName := draftBranchName u;
     commitTitle := v; commitDescription := commitDescription u;
     drawerPage := drawerPage u; stackSelections := stackSelections u;
     selectedChanges := selectedChanges u |}.

Definition set_commitDescription (v : string) (u : UiState) : UiState :=
  {| projectStackId := projectStackId u; draftBranchName := draftBranchName u;
     commitTitle := commitTitle u; commitDescription := v;
     drawerPage := drawerPage u; stackSelections := stackSelections u;
     selectedChanges := selectedChanges u |}.

Definition set_drawerPage (v : option string) (u : UiState) : UiState :=
  {| projectStackId := projectStackId u; draftBranchName := draftBranchName u;
     commitTitle := commitTitle u; commitDescription := commitDescription u;
     drawerPage := v; stackSelections := stackSelections u;
     selectedChanges := selectedChanges u |}.

(** [uiState.stack(id).selection.set(v)] *)
Definition set_stackSelection (id : string) (v : StackSelection.t) (u : UiState) : UiState :=
  {| projectStackId := projectStackId u; draftBranchName := draftBranchName u;
     commitTitle := commitTitle u; commitDescription := commitDescription u;
     drawerPage := drawerPage u; stackSelections := <[id := v]> (stackSelections u);
     selectedChanges := selectedChanges u |}.

(** [changeSelection.clear()] *)
Definition clearChangeSelection (u : UiState) : UiState :=
  {| projectStackId := projectStackId u; draftBranchName := draftBranchName u;
     commitTitle := commitTitle u; commitDescription := commitDescription u;
     drawerPage := drawerPage u; stackSelections := stackSelections u;
     selectedChanges := [] |}.

Definition emits (evs : list Event) (w : World) : World :=
  {| ui := ui w; trace := trace w ++ evs |}.

(** ** Two layers of effects

    [findHunkDiff] and the flattening loops touch no store: all they do is
    call collaborators and throw.  Their runs are values of [Calls]: the
    outcome and the calls issued, in order.  [createCommit] and
    [handleCommitCreation] also read and write the stores; their runs are
    functions on the world, [M]. *)

Definition Calls (A : Type) : Type := Result A * list Event.

#[export] Instance Calls_ret : MRet Calls := λ A a, (Ok a, []).

#[export] Instance Calls_bind : MBind Calls := λ A B k m,
  match m with
  | (Ok a, evs) => match k a with (r, evs') => (r, evs ++ evs') end
  | (Throw e, evs) => (Throw e, evs)
  end.

#[export] Instance Calls_throw : MThrow Exn Calls := λ A e, (Throw e, []).

(** [await call(...)]: the call is issued, then resolves or rejects. *)
Definition await {A} (call : Event) (r : Result A) : Calls A := (r, [call]).

(** A synchronous call that may throw. *)
Definition lift {A} (r : Result A) : Calls A := (r, []).

Definition M (A : Type) : Type := World → Result A * World.

#[export] Instance M_ret : MRet M := λ A a w, (Ok a, w).

#[export] Instance M_bind : MBind M := λ A B k m w,
  match m w with
  | (Ok a, w') => k a w'
  | (Throw e, w') => (Throw e, w')
  end.

#[export] Instance M_throw : MThrow Exn M := λ A e w, (Throw e, w).

(** Running a sequence of calls in a world appends them to its trace. *)
Definition perform {A} (c : Calls A) : M A := λ w, (c.1, emits c.2 w).

(** Reading a store or a derived value. *)
Definition gets {A} (f : UiState → A) : M A := λ w, (Ok (f (ui w)), w).

(** [store.set(...)] *)
Definition modify (f : UiState → UiState) : M unit :=
  λ w, (Ok tt, {| ui := f (ui w); trace := trace w |}).

(** [showError(...)], [showToast(...)] *)
Definition notify (ev : Event) : M unit := λ w, (Ok tt, emits [ev] w).

(** [try { body } catch (err) { handler(err) }] *)
Definition try_catch {A} (body : M A) (handler : Exn → M A) : M A := λ w,
  match body w with
  | (Ok a, w') => (Ok a, w')
  | (Throw e, w') => handler e w'
  end.

(** [if (!v) throw new Error(msg)], after which [v] is a non-empty string. *)
Definition require (v : option string) (msg : string) : M string :=
  match v with
  | Some s => if String.eqb s "" then mthrow (Error msg) else mret s
  | None => mthrow (Error msg)
  end.

(** ** The component *)

Variable srv : Services.

(** Props. *)
Variable projectId : string.
Variable stackId : option string.

(** [$derived] values. *)

(** [selection = stackState?.selection.current], where
    [stackState = stackId ? uiState.stack(stackId) : undefined]. *)
Definition selection (u : UiState) : option StackSelection.t :=
  match stackId with
  | Some sid => if truthy stackId then stackSelections u !! sid else None
  | None => None
  end.

Definition selectedCommitId (u : UiState) : option string :=
  s ← selection u; StackSelection.commitId s.

(** [topBranchName = topBranchResult?.current.data?.at(0)?.name] *)
Definition topBranchName : option string :=
  match stackId with
  | Some sid =>
      if truthy stackId
      then bs ← branches srv projectId sid; b ← head bs; Some (name b)
      else None
  | None => None
  end.

Definition selectedBranchName (u : UiState) : option string :=
  js_or (StackSelection.branchName <$> selection u) topBranchName.

(** The predicate of [file.subject.hunks.find(...)]. *)
Definition sameCoordinates (hunk : SelectedHunk) (hunkDiff : DiffHunk) : bool :=
  (oldStart hunkDiff =? oldStart (hunkHeaderOf hunk))%Z &&
  (oldLines hunkDiff =? oldLines (hunkHeaderOf hunk))%Z &&
  (newStart hunkDiff =? newStart (hunkHeaderOf hunk))%Z &&
  (newLines hunkDiff =? newLines (hunkHeaderOf hunk))%Z.

Definition findHunkDiff (filePath : string) (hunk : SelectedHunk) : Calls (option DiffHunk) :=
  treeChange ← await (FetchChangeCall projectId filePath) (fetchChange srv projectId filePath);
  match treeChange with
  | None => mthrow (Error "Failed to fetch change")
  | Some change =>
      changeDiff ← await (FetchDiffCall projectId change) (fetchDiff srv projectId change);
      match changeDiff with
      | None => mthrow (Error "Failed to fetch diff")
      | Some file =>
          match file with
          | NotPatch _ => mret None
          | Patch hunks => mret (List.find (sameCoordinates hunk) hunks)
          end
      end
  end.

(** Lines 72-92 of [createCommit]: the target stack and branch. *)
Definition resolveTarget : M (string * string) :=
  selected ← gets selectedBranchName;
  let finalStackId := stackId in
  let finalBranchName := js_or selected topBranchName in
  '(finalStackId, finalBranchName) ←
    (if negb (truthy stackId) then
       draft ← gets draftBranchName;
       let req := {| NewStackRequest.projectId := projectId;
                     NewStackRequest.branchName := draft |} in
       stack ← perform (await (NewStackCall req) (createNewStack srv req));
       modify (set_projectStackId (Some (Stack.id stack)));;
       modify (set_draftBranchName None);;
       mret (Some (Stack.id stack), name <$> head (Stack.heads stack))
     else
       mret (finalStackId, finalBranchName));
  finalStackId ← require finalStackId "No stack selected!";
  finalBranchName ← require finalBranchName "No branch selected!";
  mret (finalStackId, finalBranchName).

(** Lines 108-123: the loop over the hunks of a partially selected file;
    [hunkHeaders] is the array being pushed to. *)
Fixpoint forHunks (path : string) (hunks : list SelectedHunk)
    (hunkHeaders : list HunkHeader) : Calls (list HunkHeader) :=
  match hunks with
  | [] => mret hunkHeaders
  | hunk :: rest =>
      match hunk with
      | HunkFull h => forHunks path rest (hunkHeaders ++ [h])
      | HunkPartial _ selectedLines =>
          hunkDiff ← findHunkDiff path hunk;
          match hunkDiff with
          | None => mthrow (Error "Hunk not found while commiting")
          | Some hunkDiff =>
              hs ← lift (lineIdsToHunkHeaders srv selectedLines (diff hunkDiff) "commit");
              forHunks path rest (hunkHeaders ++ hs)
          end
      end
  end.

(** Lines 96-131: the loop over the selected files; [worktreeChanges] is the
    array being pushed to. *)
Fixpoint forItems (items : list SelectedFile.t)
    (worktreeChanges : list WorktreeChanges.t) : Calls (list WorktreeChanges.t) :=
  match items with
  | [] => mret worktreeChanges
  | item :: rest =>
      match SelectedFile.selection item with
      | FullFile =>
          forItems rest (worktreeChanges ++
            [{| WorktreeChanges.pathBytes := SelectedFile.pathBytes item;
                WorktreeChanges.previousPathBytes := SelectedFile.previousPathBytes item;
                WorktreeChanges.hunkHeaders := [] |}])
      | PartialFile hunks =>
          hunkHeaders ← forHunks (SelectedFile.path item) hunks [];
          forItems rest (worktreeChanges ++
            [{| WorktreeChanges.pathBytes := SelectedFile.pathBytes item;
                WorktreeChanges.previousPathBytes := SelectedFile.previousPathBytes item;
                WorktreeChanges.hunkHeaders := hunkHeaders |}])
      end
  end.

(** Lines 94-131 of [createCommit]: the flattening of the change selection. *)
Definition flattenSelection : M (list WorktreeChanges.t) :=
  items ← gets selectedChanges;
  perform (forItems items []).

Definition rejectedTitle : string := "Some changes were not committed".

Definition rejectedText (rejected : list (string * string)) : string :=
  "The following files were not committed becuase they are locked to another branch:" +:+ LF
  +:+ String.concat LF (map snd rejected).

(** Lines 133-164 of [createCommit]: the commit call and what follows it. *)
Definition commitChanges (message finalStackId finalBranchName : string)
    (worktreeChanges : list WorktreeChanges.t) : M unit :=
  parentId ← gets selectedCommitId;
  let req := {| CommitRequest.projectId := projectId;
                CommitRequest.stackId := finalStackId;
                CommitRequest.parentId := parentId;
                CommitRequest.message := message;
                CommitRequest.stackBranchName := finalBranchName;
                CommitRequest.worktreeChanges := worktreeChanges |} in
  response ← perform (await (CreateCommitCall req) (createCommitInStack srv req));
  let newId := CommitResponse.newCommit response in
  modify (set_commitTitle "");;
  modify (set_commitDescription "");;
  modify (set_drawerPage None);;
  modify (set_stackSelection finalStackId
            {| StackSelection.branchName := finalBranchName;
               StackSelection.commitId := Some newId |});;
  modify clearChangeSelection;;
  if (0 <? length (CommitResponse.pathsToRejectedChanges response))%nat
  then notify (ShowError rejectedTitle
                 (Text (rejectedText (CommitResponse.pathsToRejectedChanges response))))
  else mret tt.

Definition createCommit (message : string) : M unit :=
  '(finalStackId, finalBranchName) ← resolveTarget;
  worktreeChanges ← flattenSelection;
  commitChanges message finalStackId finalBranchName worktreeChanges.

(** [input?.getMessage()] is the argument: [None] when the editor is not
    mounted. *)
Definition handleCommitCreation (message : option string) : M unit :=
  match message with
  | Some m =>
      if truthy message
      then try_catch (createCommit m)
             (λ err, notify (ShowError "Failed to commit" (Caught err)))
      else notify (ShowToast "Commit message is required" "error")
  | None => notify (ShowToast "Commit message is required" "error")
  end.

End Component.

Arguments Event : clear implicits.
Arguments Services : clear implicits.
Arguments World : clear implicits.
Arguments Calls : clear implicits.
Arguments M : clear implicits.

(** ** Vocabulary of the statements *)

Section Vocabulary.

Context {TreeChange : Type}.
Variable srv : Services TreeChange.
Variable projectId : string.

(** The calls of Diff Lookup. *)
Definition isLookup (ev : Event TreeChange) : Prop :=
  match ev with
  | FetchChangeCall _ _ | FetchDiffCall _ _ => True
  | _ => False
  end.

Definition isCommitCall (ev : Event TreeChange) : Prop :=
  match ev with
  | CreateCommitCall _ => True
  | _ => False
  end.

(** Four equal coordinates. *)
Definition coordinatesMatch (hunk : SelectedHunk) (hunkDiff : DiffHunk) : Prop :=
  oldStart hunkDiff = oldStart (hunkHeaderOf hunk) ∧
  oldLines hunkDiff = oldLines (hunkHeaderOf hunk) ∧
  newStart hunkDiff = newStart (hunkHeaderOf hunk) ∧
  newLines hunkDiff = newLines (hunkHeaderOf hunk).

(** What one hunk selection of the file at [path] contributes, in the
    words of the specification: a [full] hunk its own coordinates and no
    call; a [partial] hunk the headers the translator returns for the hunk
    Diff Lookup found, and the calls of that lookup. *)
Inductive hunkYields (path : string) :
    SelectedHunk → list HunkHeader → list (Event TreeChange) → Prop :=
| full_hunk_yields h :
    hunkYields path (HunkFull h) [h] []
| partial_hunk_yields h lines hunkDiff calls hs :
    findHunkDiff srv projectId path (HunkPartial h lines) = (Ok (Some hunkDiff), calls) →
    lineIdsToHunkHeaders srv lines (diff hunkDiff) "commit" = Ok hs →
    hunkYields path (HunkPartial h lines) hs calls.

(** What one file selection contributes: its change entry and the calls
    made for it. *)
Inductive fileYields :
    SelectedFile.t → WorktreeChanges.t → list (Event TreeChange) → Prop :=
| full_file_yields item :
    SelectedFile.selection item = FullFile →
    fileYields item
      {| WorktreeChanges.pathBytes := SelectedFile.pathBytes item;
         WorktreeChanges.previousPathBytes := SelectedFile.previousPathBytes item;
         WorktreeChanges.hunkHeaders := [] |} []
| partial_file_yields item hunks hss callss :
    SelectedFile.selection item = PartialFile hunks →
    Forall3 (hunkYields (SelectedFile.path item)) hunks hss callss →
    fileYields item
      {| WorktreeChanges.pathBytes := SelectedFile.pathBytes item;
         WorktreeChanges.previousPathBytes := SelectedFile.previousPathBytes item;
         WorktreeChanges.hunkHeaders := concat hss |} (concat callss).

(** Pushing to an array that already holds [acc]. *)
Definition pushedAfter {A} (acc : list A) (c : Calls TreeChange (list A)) :
    Calls TreeChange (list A) :=
  match c with
  | (Ok l, evs) => (Ok (acc ++ l), evs)
  | (Throw e, evs) => (Throw e, evs)
  end.

Definition isNewStackCall (ev : Event TreeChange) : Prop :=
  match ev with
  | NewStackCall _ => True
  | _ => False
  end.

Variable stackId : option string.

(** The request of the commit call (lines 133-140), for the target
    [(finalStackId, finalBranchName)] and the stores [u]. *)
Definition commitRequest (message finalStackId finalBranchName : string)
    (worktreeChanges : list WorktreeChanges.t) (u : UiState) : CommitRequest.t :=
  {| CommitRequest.projectId := projectId;
     CommitRequest.stackId := finalStackId;
     CommitRequest.parentId := selectedCommitId stackId u;
     CommitRequest.message := message;
     CommitRequest.stackBranchName := finalBranchName;
     CommitRequest.worktreeChanges := worktreeChanges |}.

(** The stores after the five writes that follow a resolved commit call
    (lines 145-156). *)
Definition committed (finalStackId finalBranchName newId : string) (u : UiState) : UiState :=
  clearChangeSelection
    (set_stackSelection finalStackId
       {| StackSelection.branchName := finalBranchName;
          StackSelection.commitId := Some newId |}
       (set_drawerPage None (set_commitDescription "" (set_commitTitle "" u)))).

(** The warning of lines 158-164. *)
Definition warning (response : CommitResponse.t) : list (Event TreeChange) :=
  if (0 <? length (CommitResponse.pathsToRejectedChanges response))%nat
  then [ShowError rejectedTitle
          (Text (rejectedText (CommitResponse.pathsToRejectedChanges response)))]
  else [].

(** The stores after the two writes that follow a created stack
    (lines 81-83). *)
Definition stackCreated (stack : Stack.t) (u : UiState) : UiState :=
  set_draftBranchName None (set_projectStackId (Some (Stack.id stack)) u).

(** The four ways a run of [createCommit] can go: no target, a failed
    flattening, a rejected commit call, a resolved commit call. *)
Inductive CommitRun (message : string) (w : World TreeChange) :
    Result unit → World TreeChange → Prop :=
| run_unresolved e w1 :
    resolveTarget srv projectId stackId w = (Throw e, w1) →
    CommitRun message w (Throw e) w1
| run_unflattened s b w1 e calls :
    resolveTarget srv projectId stackId w = (Ok (s, b), w1) →
    forItems srv projectId (selectedChanges (ui w1)) [] = (Throw e, calls) →
    CommitRun message w (Throw e) (emits calls w1)
| run_rejected s b w1 changes calls e :
    resolveTarget srv projectId stackId w = (Ok (s, b), w1) →
    forItems srv projectId (selectedChanges (ui w1)) [] = (Ok changes, calls) →
    createCommitInStack srv (commitRequest message s b changes (ui w1)) = Throw e →
    CommitRun message w (Throw e)
      (emits (calls ++ [CreateCommitCall (commitRequest message s b changes (ui w1))]) w1)
| run_committed s b w1 changes calls response :
    resolveTarget srv projectId stackId w = (Ok (s, b), w1) →
    forItems srv projectId (selectedChanges (ui w1)) [] = (Ok changes, calls) →
    createCommitInStack srv (commitRequest message s b changes (ui w1)) = Ok response →
    CommitRun message w (Ok tt)
      {| ui := committed s b (CommitResponse.newCommit response) (ui w1);
         trace := trace w1 ++ calls
                  ++ CreateCommitCall (commitRequest message s b changes (ui w1))
                  :: warning response |}.

End Vocabulary.

(** ** Scenarios

    Concrete collaborators and worlds, after the scenarios of the
    specification; a tree change is represented by its path. *)

Definition coordinates (a b c d : Z) : HunkHeader :=
  {| oldStart := a; oldLines := b; newStart := c; newLines := d |}.

Definition demoHunks : list DiffHunk :=
  [ {| header := coordinates 1 5 1 6; diff := "@@ -1,5 +1,6 @@" |};
    {| header := coordinates 10 4 10 4; diff := "@@ -10,4 +10,4 @@" |} ].

(** Commits answer with [rejected]; a commit whose message is ["boom"] is
    refused by the backend. *)
Definition demoServices (rejected : list (string * string)) : Services string :=
  {| fetchChange := λ _ path,
       if String.eqb path "fileGone" then Ok None else Ok (Some path);
     fetchDiff := λ _ change,
       if String.eqb change "fileBin" then Ok (Some (NotPatch "Binary"))
       else Ok (Some (Patch demoHunks));
     lineIdsToHunkHeaders := λ lines _ _,
       match lines with
       | [] => Ok []
       | _ => Ok [coordinates 10 3 10 3]
       end;
     createCommitInStack := λ req,
       if String.eqb (CommitRequest.message req) "boom"
       then Throw (Error "backend refused")
       else Ok {| CommitResponse.newCommit := "c0ffee";
                  CommitResponse.pathsToRejectedChanges := rejected |};
     createNewStack := λ req,
       Ok {| Stack.id := "stack-1";
             Stack.heads := [ {| name := default "lane" (NewStackRequest.branchName req) |} ] |};
     branches := λ _ _, Some [ {| name := "top" |} ] |}.

Definition demoFile (path : string) (sel : FileSelection) : SelectedFile.t :=
  {| SelectedFile.path := path;
     SelectedFile.pathBytes := [Z.of_nat (String.length path)];
     SelectedFile.previousPathBytes := None;
     SelectedFile.selection := sel |}.

Definition demoLines : list LineId :=
  [ {| oldLine := Some 10%Z; newLine := None |};
    {| oldLine := None; newLine := Some 10%Z |};
    {| oldLine := Some 11%Z; newLine := None |} ].

Definition demoWorld (items : list SelectedFile.t) : World string :=
  {| ui := {| projectStackId := None;
              draftBranchName := Some "draft";
              commitTitle := "title";
              commitDescription := "body";
              drawerPage := Some "new-commit";
              stackSelections :=
                {[ "stack-0" := {| StackSelection.branchName := "feature";
                                   StackSelection.commitId := Some "abc" |} ]};
              selectedChanges := items |};
     trace := [] |}.

(** Scenarios A and B: a fully selected file, and a partially selected file
    with one fully selected hunk. *)
Definition scenarioA : list SelectedFile.t :=
  [ demoFile "fileA" FullFile ].

Definition scenarioB : list SelectedFile.t :=
  [ demoFile "fileB" (PartialFile [ HunkFull (coordinates 1 5 1 6) ]) ].

(** Scenario C, next to a fully selected hunk and a fully selected file. *)
Definition scenarioC : list SelectedFile.t :=
  [ demoFile "fileC"
      (PartialFile [ HunkPartial (coordinates 10 4 10 4) demoLines;
                     HunkFull (coordinates 1 5 1 6) ]);
    demoFile "fileA" FullFile ].

(** Scenario D: the selected hunk is no longer in the diff. *)
Definition scenarioD : list SelectedFile.t :=
  [ demoFile "fileA" FullFile;
    demoFile "fileC" (PartialFile [ HunkPartial (coordinates 10 4 12 4) demoLines ]) ].

(** The change entries of [scenarioC] and the request they are committed
    with when no stack is given: the stack is created from the draft. *)
Definition scenarioCChanges : list WorktreeChanges.t :=
  [ {| WorktreeChanges.pathBytes := [5%Z];
       WorktreeChanges.previousPathBytes := None;
       WorktreeChanges.hunkHeaders := [coordinates 10 3 10 3; coordinates 1 5 1 6] |};
    {| WorktreeChanges.pathBytes := [5%Z];
       WorktreeChanges.previousPathBytes := None;
       WorktreeChanges.hunkHeaders := [] |} ].

Definition scenarioRequest (message : string) : CommitRequest.t :=
  {| CommitRequest.projectId := "p";
     CommitRequest.stackId := "stack-1";
     CommitRequest.parentId := None;
     CommitRequest.message := message;
     CommitRequest.stackBranchName := "draft";
     CommitRequest.worktreeChanges := scenarioCChanges |}.

Definition scenarioCalls (message : string) : list (Event string) :=
  [ NewStackCall {| NewStackRequest.projectId := "p";
                    NewStackRequest.branchName := Some "draft" |};
    FetchChangeCall "p" "fileC";
    FetchDiffCall "p" "fileC";
    CreateCommitCall (scenarioRequest message) ].

(** ** The commit action and the failing runs of the flattener *)

Section Enabled.

Context {TreeChange : Type}.
Variable srv : Services TreeChange.
Variable projectId : string.
Variable stackId : option string.

(** [canCommit = (selectedBranchName || draftBranchName || topBranchName)
    && selectedChanges.current.length > 0], as the truth value that
    [disabledAction={!canCommit}] tests. *)
Definition canCommit (u : UiState) : bool :=
  truthy (js_or (js_or (selectedBranchName srv projectId stackId u) (draftBranchName u))
                (topBranchName srv projectId stackId))
  && (0 <? length (selectedChanges u))%nat.

(** The three ways the body of the hunk loop throws at a partially selected
    hunk (lines 114-120): the lookup throws, the lookup finds nothing, the
    translator throws. *)
Inductive hunkFails (path : string) :
    SelectedHunk → Exn → list (Event TreeChange) → Prop :=
| lookup_throws h lines e calls :
    findHunkDiff srv projectId path (HunkPartial h lines) = (Throw e, calls) →
    hunkFails path (HunkPartial h lines) e calls
| hunk_not_found h lines calls :
    findHunkDiff srv projectId path (HunkPartial h lines) = (Ok None, calls) →
    hunkFails path (HunkPartial h lines) (Error "Hunk not found while commiting") calls
| translator_throws h lines hunkDiff calls e :
    findHunkDiff srv projectId path (HunkPartial h lines) = (Ok (Some hunkDiff), calls) →
    lineIdsToHunkHeaders srv lines (diff hunkDiff) "commit" = Throw e →
    hunkFails path (HunkPartial h lines) e calls.

(** A file fails at the first of its hunks that fails, after the calls of
    the hunks before it. *)
Inductive fileFails : SelectedFile.t → Exn → list (Event TreeChange) → Prop :=
| file_fails item earlier hunk later hss callss e calls :
    SelectedFile.selection item = PartialFile (earlier ++ hunk :: later) →
    Forall3 (hunkYields srv projectId (SelectedFile.path item)) earlier hss callss →
    hunkFails (SelectedFile.path item) hunk e calls →
    fileFails item e (concat callss ++ calls).

End Enabled.

(** A hunk selected as a whole. *)
Definition isFullHunk (hunk : SelectedHunk) : Prop :=
  match hunk with
  | HunkFull _ => True
  | HunkPartial _ _ => False
  end.

(** A file selected without any partially selected hunk. *)
Definition withoutPartialHunks (item : SelectedFile.t) : Prop :=
  match SelectedFile.selection item with
  | FullFile => True
  | PartialFile hunks => Forall isFullHunk hunks
  end.

(** The entry of such a file: its hunks' own coordinates. *)
Definition wholeEntry (item : SelectedFile.t) : WorktreeChanges.t :=
  {| WorktreeChanges.pathBytes := SelectedFile.pathBytes item;
     WorktreeChanges.previousPathBytes := SelectedFile.previousPathBytes item;
     WorktreeChanges.hunkHeaders :=
       match SelectedFile.selection item with
       | FullFile => []
       | PartialFile hunks => hunkHeaderOf <$> hunks
       end |}.

(** The partially selected hunks of a selection, each with the path of its
    file, in the order the loops meet them. *)
Definition partialHunksOf (path : string) (hunks : list SelectedHunk) :
    list (string * SelectedHunk) :=
  flat_map (λ hunk, match hunk with
                    | HunkFull _ => []
                    | HunkPartial _ _ => [(path, hunk)]
                    end) hunks.

Definition partialHunks (items : list SelectedFile.t) : list (string * SelectedHunk) :=
  flat_map (λ item, match SelectedFile.selection item with
                    | FullFile => []
                    | PartialFile hunks => partialHunksOf (SelectedFile.path item) hunks
                    end) items.

Definition isNotification {TreeChange} (ev : Event TreeChange) : Prop :=
  match ev with
  | ShowError _ _ | ShowToast _ _ => True
  | _ => False
  end.

(** ** The review button

    The script of [CreateReviewButton.svelte]: an [Action] store, two menu
    items that write it and a button that hands its value to [onclick]. *)

Inductive Action :=
| CreateButlerReview
| CreatePullRequest.

(** The string value of an [Action], which is also the label shown. *)
Definition actionLabel (a : Action) : string :=
  match a with
  | CreateButlerReview => "Create Butler Review"
  | CreatePullRequest => "Create Pull Request"
  end.

(** What the user does with the mounted button: picks a menu item
    ([$action = a]) or presses the button ([onclick($action)]). *)
Inductive Interaction :=
| ChooseItem (a : Action)
| PressButton.

(** One interaction from the store value [action]: the new store value and
    the calls of the [onclick] prop. *)
Definition interact (action : Action) (i : Interaction) : Action * list Action :=
  match i with
  | ChooseItem a => (a, [])
  | PressButton => (action, [action])
  end.

Fixpoint interactions (action : Action) (steps : list Interaction) :
    Action * list Action :=
  match steps with
  | [] => (action, [])
  | i :: rest =>
      match interact action i with
      | (action', calls) =>
          match interactions action' rest with
          | (final, calls') => (final, calls ++ calls')
          end
      end
  end.

(** The items picked and the number of presses in a series of interactions. *)
Definition choices (steps : list Interaction) : list Action :=
  flat_map (λ i, match i with ChooseItem a => [a] | PressButton => [] end) steps.

Definition presses (steps : list Interaction) : nat :=
  length (flat_map (λ i, match i with ChooseItem _ => [] | PressButton => [tt] end) steps).

(** Collaborators that know no branch and cannot create a stack. *)
Definition bareServices : Services string :=
  {| fetchChange := fetchChange (demoServices []);
     fetchDiff := fetchDiff (demoServices []);
     lineIdsToHunkHeaders := lineIdsToHunkHeaders (demoServices []);
     createCommitInStack := createCommitInStack (demoServices []);
     createNewStack := λ _, Throw (Error "no stack for you");
     branches := λ _ _, None |}.

(** A translator that refuses to translate. *)
Definition brokenTranslator : Services string :=
  {| fetchChange := fetchChange (demoServices []);
     fetchDiff := fetchDiff (demoServices []);
     lineIdsToHunkHeaders := λ _ _ _, Throw (Error "Invalid hunk diff");
     createCommitInStack := createCommitInStack (demoServices []);
     createNewStack := createNewStack (demoServices []);
     branches := branches (demoServices []) |}.

(** ** Diff Lookup and the flattening loops *)

Section Flattening.

Context {TreeChange : Type}.
Variable srv : Services TreeChange.
Variable projectId : string.


Lemma sameCoordinates_spec hunk hunkDiff :
  sameCoordinates hunk hunkDiff = true ↔ coordinatesMatch hunk hunkDiff.
Proof.
  unfold sameCoordinates, coordinatesMatch.
  rewrite !andb_true_iff, !Z.eqb_eq. tauto.
Qed.

Lemma findHunkDiff_lookups path hunk :
  Forall isLookup (findHunkDiff srv projectId path hunk).2.
Proof.
  unfold findHunkDiff, mbind, Calls_bind, await.
  destruct (fetchChange srv projectId path) as [[change|]|e]; simpl;
    [|repeat constructor..].
  destruct (fetchDiff srv projectId change) as [[[hunks|kind]|]|e]; simpl;
    repeat constructor.
Qed.

Lemma pushedAfter_app {A} (acc1 acc2 : list A) (c : Calls TreeChange (list A)) :
  pushedAfter (acc1 ++ acc2) c = pushedAfter acc1 (pushedAfter acc2 c).
Proof. destruct c as [[l|e] evs]; simpl; [by rewrite app_assoc | done]. Qed.

(** The loops only ever push: a run from [acc] is the run from the empty
    array with [acc] in front. *)
Lemma forHunks_acc path hunks acc :
  forHunks srv projectId path hunks acc = pushedAfter acc (forHunks srv projectId path hunks []).
Proof.
  revert acc. induction hunks as [|hunk rest IH]; intros acc; simpl.
  - unfold mret, Calls_ret. simpl. by rewrite app_nil_r.
  - destruct hunk as [h|h lines].
    + rewrite (IH (acc ++ [h])), (IH [h]). apply pushedAfter_app.
    + unfold mbind, Calls_bind, lift.
      destruct (findHunkDiff srv projectId path (HunkPartial h lines))
        as [[[hunkDiff|]|e] evs]; simpl; try done.
      destruct (lineIdsToHunkHeaders srv lines (diff hunkDiff) "commit") as [hs|e];
        simpl; [|done].
      rewrite (IH (acc ++ hs)), (IH hs), pushedAfter_app.
      by destruct (pushedAfter hs (forHunks srv projectId path rest [])) as [[l|e] evs'].
Qed.

Lemma forItems_acc items acc :
  forItems srv projectId items acc = pushedAfter acc (forItems srv projectId items []).
Proof.
  revert acc. induction items as [|item rest IH]; intros acc; simpl.
  - unfold mret, Calls_ret. simpl. by rewrite app_nil_r.
  - destruct (SelectedFile.selection item) as [|hunks].
    + rewrite (IH (acc ++ _)), (IH [_]). apply pushedAfter_app.
    + unfold mbind, Calls_bind.
      destruct (forHunks srv projectId (SelectedFile.path item) hunks [])
        as [[hs|e] evs]; simpl; [|done].
      rewrite (IH (acc ++ _)), (IH [_]), pushedAfter_app.
      by destruct (pushedAfter _ (forItems srv projectId rest [])) as [[l|e] evs'].
Qed.

Lemma forHunks_lookups path hunks acc :
  Forall isLookup (forHunks srv projectId path hunks acc).2.
Proof.
  revert acc. induction hunks as [|hunk rest IH]; intros acc; simpl; [done|].
  destruct hunk as [h|h lines]; [done|].
  pose proof (findHunkDiff_lookups path (HunkPartial h lines)) as Hl.
  unfold mbind, Calls_bind, lift.
  destruct (findHunkDiff srv projectId path (HunkPartial h lines))
    as [[[hunkDiff|]|e] evs]; simpl in *; try by rewrite ?app_nil_r.
  destruct (lineIdsToHunkHeaders srv lines (diff hunkDiff) "commit") as [hs|e];
    simpl; [|by rewrite app_nil_r].
  specialize (IH (acc ++ hs)).
  destruct (forHunks srv projectId path rest (acc ++ hs)) as [r evs'].
  by apply Forall_app.
Qed.

Lemma forItems_lookups items acc :
  Forall isLookup (forItems srv projectId items acc).2.
Proof.
  revert acc. induction items as [|item rest IH]; intros acc; simpl; [done|].
  destruct (SelectedFile.selection item) as [|hunks]; [done|].
  pose proof (forHunks_lookups (SelectedFile.path item) hunks []) as Hl.
  unfold mbind, Calls_bind.
  destruct (forHunks srv projectId (SelectedFile.path item) hunks [])
    as [[hs|e] evs]; simpl in *; [|done].
  match goal with |- context [forItems _ _ rest ?a] => specialize (IH a);
    destruct (forItems srv projectId rest a) as [r evs'] end.
  by apply Forall_app.
Qed.

(** *** Successful runs of the loops *)

Lemma forHunks_complete path hunks hss callss :
  Forall3 (hunkYields srv projectId path) hunks hss callss →
  forHunks srv projectId path hunks [] = (Ok (concat hss), concat callss).
Proof.
  induction 1 as [|hunk hs calls rest hss callss Hy _ IH]; simpl; [done|].
  destruct Hy as [h|h lines hunkDiff calls hs Hfind Hlines].
  - by rewrite forHunks_acc, IH.
  - unfold mbind, Calls_bind, lift. rewrite Hfind, Hlines. simpl.
    by rewrite forHunks_acc, IH.
Qed.

Lemma forHunks_sound path hunks hs evs :
  forHunks srv projectId path hunks [] = (Ok hs, evs) →
  ∃ hss callss, Forall3 (hunkYields srv projectId path) hunks hss callss ∧
                hs = concat hss ∧ evs = concat callss.
Proof.
  revert hs evs. induction hunks as [|hunk rest IH]; intros hs evs; simpl.
  - intros [= <- <-]. exists [], []. by split; [constructor|].
  - destruct hunk as [h|h lines].
    + rewrite forHunks_acc.
      destruct (forHunks srv projectId path rest []) as [[l|e] evs'];
        simpl; [|done].
      intros [= <- <-].
      destruct (IH _ _ eq_refl) as (hss & callss & HF & -> & ->).
      exists ([h] :: hss), ([] :: callss).
      split; [|done]. constructor; [constructor | done].
    + unfold mbind, Calls_bind, lift.
      destruct (findHunkDiff srv projectId path (HunkPartial h lines))
        as [[[hunkDiff|]|e] calls] eqn:Hfind; simpl; try done.
      destruct (lineIdsToHunkHeaders srv lines (diff hunkDiff) "commit")
        as [hs1|e] eqn:Hlines; simpl; [|done].
      rewrite forHunks_acc.
      destruct (forHunks srv projectId path rest []) as [[l|e] evs'];
        simpl; [|done].
      intros [= <- <-].
      destruct (IH _ _ eq_refl) as (hss & callss & HF & -> & ->).
      exists (hs1 :: hss), (calls :: callss).
      split; [|done]. constructor; [by econstructor | done].
Qed.

Lemma forItems_complete items changes callss :
  Forall3 (fileYields srv projectId) items changes callss →
  forItems srv projectId items [] = (Ok changes, concat callss).
Proof.
  induction 1 as [|item change calls rest changes callss Hy _ IH]; simpl; [done|].
  destruct Hy as [item Hsel|item hunks hss callss' Hsel Hhunks]; rewrite Hsel.
  - by rewrite forItems_acc, IH.
  - unfold mbind, Calls_bind.
    rewrite (forHunks_complete _ _ _ _ Hhunks). simpl.
    by rewrite forItems_acc, IH.
Qed.

Lemma forItems_sound items changes evs :
  forItems srv projectId items [] = (Ok changes, evs) →
  ∃ callss, Forall3 (fileYields srv projectId) items changes callss ∧
            evs = concat callss.
Proof.
  revert changes evs. induction items as [|item rest IH]; intros changes evs; simpl.
  - intros [= <- <-]. exists []. by split; [constructor|].
  - destruct (SelectedFile.selection item) as [|hunks] eqn:Hsel.
    + rewrite forItems_acc.
      destruct (forItems srv projectId rest []) as [[l|e] evs'];
        simpl; [|done].
      intros [= <- <-].
      destruct (IH _ _ eq_refl) as (callss & HF & ->).
      exists ([] :: callss).
      split; [|done]. constructor; [by constructor | done].
    + unfold mbind, Calls_bind.
      destruct (forHunks srv projectId (SelectedFile.path item) hunks [])
        as [[hs|e] calls] eqn:Hhunks; simpl; [|done].
      rewrite forItems_acc.
      destruct (forItems srv projectId rest []) as [[l|e] evs'];
        simpl; [|done].
      intros [= <- <-].
      destruct (IH _ _ eq_refl) as (callss & HF & ->).
      destruct (forHunks_sound _ _ _ _ Hhunks) as (hss & callss' & HF' & -> & ->).
      exists (concat callss' :: callss).
      split; [|done]. constructor; [by econstructor | done].
Qed.

(** *** Failing runs of the loops *)

Lemma forHunks_fails path hunks hunk acc :
  hunk ∈ hunks →
  (∃ h lines, hunk = HunkPartial h lines) →
  (∀ hunkDiff, (findHunkDiff srv projectId path hunk).1 ≠ Ok (Some hunkDiff)) →
  ∃ e, (forHunks srv projectId path hunks acc).1 = Throw e.
Proof.
  intros Hin (h & lines & ->) Hfail. revert acc.
  induction hunks as [|hunk rest IH]; intros acc; [by apply elem_of_nil in Hin|].
  simpl. destruct hunk as [h'|h' lines'].
  - apply elem_of_cons in Hin as [[=]|Hin]. by apply IH.
  - unfold mbind, Calls_bind, lift.
    destruct (findHunkDiff srv projectId path (HunkPartial h' lines'))
      as [[[hunkDiff|]|e] calls] eqn:Hfind; simpl; eauto.
    destruct (lineIdsToHunkHeaders srv lines' (diff hunkDiff) "commit")
      as [hs1|e]; simpl; eauto.
    apply elem_of_cons in Hin as [[= -> ->]|Hin].
    + rewrite Hfind in Hfail. by destruct (Hfail hunkDiff).
    + destruct (IH Hin (acc ++ hs1)) as [e He].
      destruct (forHunks srv projectId path rest (acc ++ hs1)) as [r evs'].
      simpl in *. eauto.
Qed.

Lemma forItems_fails items item hunks hunk acc :
  item ∈ items →
  SelectedFile.selection item = PartialFile hunks →
  hunk ∈ hunks →
  (∃ h lines, hunk = HunkPartial h lines) →
  (∀ hunkDiff,
     (findHunkDiff srv projectId (SelectedFile.path item) hunk).1 ≠ Ok (Some hunkDiff)) →
  ∃ e, (forItems srv projectId items acc).1 = Throw e.
Proof.
  intros Hin Hsel Hhunk Hpartial Hfail. revert acc.
  induction items as [|item' rest IH]; intros acc; [by apply elem_of_nil in Hin|].
  simpl. apply elem_of_cons in Hin as [<-|Hin].
  - rewrite Hsel. unfold mbind, Calls_bind.
    destruct (forHunks_fails _ _ _ [] Hhunk Hpartial Hfail) as [e He].
    destruct (forHunks srv projectId (SelectedFile.path item) hunks [])
      as [r calls]. simpl in He. subst r. simpl. eauto.
  - destruct (SelectedFile.selection item') as [|hunks']; [by apply IH|].
    unfold mbind, Calls_bind.
    destruct (forHunks srv projectId (SelectedFile.path item') hunks' [])
      as [[hs|e] calls]; simpl; eauto.
    match goal with |- context [forItems _ _ rest ?a] =>
      destruct (IH Hin a) as [e He];
      destruct (forItems srv projectId rest a) as [r evs'] end.
    simpl in *. eauto.
Qed.

Lemma find_first {A} (f : A → bool) (l : list A) (x : A) :
  List.find f l = Some x ↔
  ∃ before after, l = before ++ x :: after ∧ f x = true ∧
                  Forall (λ y, f y = false) before.
Proof.
  induction l as [|y l IH]; simpl.
  - split; [done|]. intros (before & after & Heq & _). by destruct before.
  - destruct (f y) eqn:Hy.
    + split.
      * intros [= ->]. exists [], l. by repeat split.
      * intros ([|z before] & after & Heq & Hx & Hbefore); simplify_eq/=; [done|].
        apply Forall_cons in Hbefore as [Hz _]. congruence.
    + rewrite IH. split.
      * intros (before & after & -> & Hx & Hbefore).
        exists (y :: before), after. repeat split; [done|]. by constructor.
      * intros ([|z before] & after & Heq & Hx & Hbefore); simplify_eq/=; [congruence|].
        apply Forall_cons in Hbefore as [_ Hbefore]. eauto.
Qed.

Lemma find_none_iff {A} (f : A → bool) (l : list A) :
  List.find f l = None ↔ Forall (λ y, f y = false) l.
Proof.
  induction l as [|y l IH]; simpl; [by split; [constructor|]|].
  destruct (f y) eqn:Hy.
  - split; [done|]. intros [Hy' _]%Forall_cons. congruence.
  - rewrite IH. split; [by constructor|]. by intros [_ ?]%Forall_cons.
Qed.

End Flattening.

(** ** Diff Lookup *)

Section DiffLookup.

Context {TreeChange : Type}.
Variable srv : Services TreeChange.
Variable projectId : string.

(** C6.  Diff Lookup ([findHunkDiff]) first asks for the change of the path
    and throws "Failed to fetch change" when there is none; it then asks for
    the diff of that change and throws "Failed to fetch diff" when there is
    none; a rejected call is rethrown.  A diff that is not a patch gives
    "not found" without an error.  In a patch the answer is the first hunk
    whose old start, old lines, new start and new lines all equal those of
    the selected hunk, and "not found" exactly when no hunk of the patch
    has these four coordinates. *)
Theorem findHunkDiff_contract (path : string) (hunk : SelectedHunk) :
  (fetchChange srv projectId path = Ok None →
     findHunkDiff srv projectId path hunk =
       (Throw (Error "Failed to fetch change"), [FetchChangeCall projectId path])) ∧
  (∀ e, fetchChange srv projectId path = Throw e →
     findHunkDiff srv projectId path hunk = (Throw e, [FetchChangeCall projectId path])) ∧
  (∀ change, fetchChange srv projectId path = Ok (Some change) →
     fetchDiff srv projectId change = Ok None →
     findHunkDiff srv projectId path hunk =
       (Throw (Error "Failed to fetch diff"),
        [FetchChangeCall projectId path; FetchDiffCall projectId change])) ∧
  (∀ change e, fetchChange srv projectId path = Ok (Some change) →
     fetchDiff srv projectId change = Throw e →
     findHunkDiff srv projectId path hunk =
       (Throw e, [FetchChangeCall projectId path; FetchDiffCall projectId change])) ∧
  (∀ change kind, fetchChange srv projectId path = Ok (Some change) →
     fetchDiff srv projectId change = Ok (Some (NotPatch kind)) →
     findHunkDiff srv projectId path hunk =
       (Ok None, [FetchChangeCall projectId path; FetchDiffCall projectId change])) ∧
  (∀ change hunks, fetchChange srv projectId path = Ok (Some change) →
     fetchDiff srv projectId change = Ok (Some (Patch hunks)) →
     ∃ found,
       findHunkDiff srv projectId path hunk =
         (Ok found, [FetchChangeCall projectId path; FetchDiffCall projectId change]) ∧
       (∀ hunkDiff, found = Some hunkDiff ↔
          ∃ before after, hunks = before ++ hunkDiff :: after ∧
            coordinatesMatch hunk hunkDiff ∧
            Forall (λ other, ¬ coordinatesMatch hunk other) before) ∧
       (found = None ↔ Forall (λ other, ¬ coordinatesMatch hunk other) hunks)).
Proof.
  assert (Hno : ∀ l : list DiffHunk,
    Forall (λ y, sameCoordinates hunk y = false) l ↔
    Forall (λ other, ¬ coordinatesMatch hunk other) l).
  { intros l. apply Forall_iff. intros d.
    rewrite <- sameCoordinates_spec. by destruct (sameCoordinates hunk d). }
  unfold findHunkDiff, mbind, Calls_bind, await.
  split; [by intros ->|]. split; [by intros e ->|].
  split; [by intros change -> ->|]. split; [by intros change e -> ->|].
  split; [by intros change kind -> ->|].
  intros change hunks -> ->. simpl.
  exists (List.find (sameCoordinates hunk) hunks). split; [done|]. split.
  - intros hunkDiff. rewrite find_first. setoid_rewrite sameCoordinates_spec.
    by setoid_rewrite Hno.
  - by rewrite find_none_iff, Hno.
Qed.

End DiffLookup.

(** Diff Lookup on the demo collaborators: no change for the path, a binary
    file, the hunk at its coordinates, and coordinates that no hunk has. *)
Lemma findHunkDiff_contract_witness :
  findHunkDiff (demoServices []) "p" "fileGone" (HunkFull (coordinates 1 5 1 6)) =
    (Throw (Error "Failed to fetch change"), [FetchChangeCall "p" "fileGone"]) ∧
  findHunkDiff (demoServices []) "p" "fileBin" (HunkFull (coordinates 1 5 1 6)) =
    (Ok None, [FetchChangeCall "p" "fileBin"; FetchDiffCall "p" "fileBin"]) ∧
  (∃ found,
     findHunkDiff (demoServices []) "p" "fileC" (HunkPartial (coordinates 10 4 10 4) demoLines) =
       (Ok found, [FetchChangeCall "p" "fileC"; FetchDiffCall "p" "fileC"]) ∧
     found = Some {| header := coordinates 10 4 10 4; diff := "@@ -10,4 +10,4 @@" |}) ∧
  (∃ found,
     findHunkDiff (demoServices []) "p" "fileC" (HunkPartial (coordinates 10 4 12 4) demoLines) =
       (Ok found, [FetchChangeCall "p" "fileC"; FetchDiffCall "p" "fileC"]) ∧
     found = None).
Proof.
  split; [|split; [|split]].
  - destruct (findHunkDiff_contract (demoServices []) "p" "fileGone"
                (HunkFull (coordinates 1 5 1 6))) as (Hnone & _).
    apply Hnone. reflexivity.
  - destruct (findHunkDiff_contract (demoServices []) "p" "fileBin"
                (HunkFull (coordinates 1 5 1 6))) as (_ & _ & _ & _ & Hkind & _).
    apply (Hkind "fileBin" "Binary"); reflexivity.
  - destruct (findHunkDiff_contract (demoServices []) "p" "fileC"
                (HunkPartial (coordinates 10 4 10 4) demoLines))
      as (_ & _ & _ & _ & _ & Hpatch).
    destruct (Hpatch "fileC" demoHunks eq_refl eq_refl) as (found & Hrun & Hsome & _).
    exists found. split; [exact Hrun|].
    apply Hsome.
    exists [ {| header := coordinates 1 5 1 6; diff := "@@ -1,5 +1,6 @@" |} ], [].
    split; [reflexivity|]. split; [by repeat split|].
    constructor; [|constructor]. intros (H & _). discriminate H.
  - destruct (findHunkDiff_contract (demoServices []) "p" "fileC"
                (HunkPartial (coordinates 10 4 12 4) demoLines))
      as (_ & _ & _ & _ & _ & Hpatch).
    destruct (Hpatch "fileC" demoHunks eq_refl eq_refl) as (found & Hrun & _ & Hnone).
    exists found. split; [exact Hrun|].
    apply Hnone. repeat constructor; intros (_ & _ & H & _); discriminate H.
Defined.

(** ** The selection flattener *)

Section Flattener.

Context {TreeChange : Type}.

(** C1.  A run of the flattener succeeds with [changes] exactly when
    [changes] holds one entry per selected file, in the order of the
    selection, each with the path bytes of its file: an entry without hunk
    headers for a [full] file; for a [partial] file the headers of its hunk
    selections in order, a [full] hunk giving its own coordinates as one
    header without any call, a [partial] hunk giving the headers the
    translator returns for the hunk Diff Lookup found.  The calls of the run
    are those lookups, in order, and nothing else changes. *)
Theorem flattenSelection_entries (srv : Services TreeChange) (projectId : string)
    (w w' : World TreeChange) (changes : list WorktreeChanges.t) :
  flattenSelection srv projectId w = (Ok changes, w') ↔
  ∃ callss, Forall3 (fileYields srv projectId) (selectedChanges (ui w)) changes callss ∧
            w' = emits (concat callss) w.
Proof.
  unfold flattenSelection, mbind, M_bind, gets, perform. split.
  - destruct (forItems srv projectId (selectedChanges (ui w)) [])
      as [r calls] eqn:Hrun. simpl. intros [= -> <-].
    destruct (forItems_sound _ _ _ _ _ Hrun) as (callss & HF & ->). eauto.
  - intros (callss & HF & ->). by rewrite (forItems_complete _ _ _ _ _ HF).
Qed.

(** C8.  Two runs of the flattener on the same change selection, against
    collaborators that answer every change, diff and translation request
    alike, end alike: the same entries in the same order with the same hunk
    headers (or the same error), after the same lookups. *)
Theorem flattening_deterministic (srv1 srv2 : Services TreeChange) (projectId : string)
    (w1 w2 : World TreeChange) :
  (∀ p path, fetchChange srv1 p path = fetchChange srv2 p path) →
  (∀ p change, fetchDiff srv1 p change = fetchDiff srv2 p change) →
  (∀ lines text purpose,
     lineIdsToHunkHeaders srv1 lines text purpose =
     lineIdsToHunkHeaders srv2 lines text purpose) →
  selectedChanges (ui w1) = selectedChanges (ui w2) →
  ∃ r calls,
    flattenSelection srv1 projectId w1 = (r, emits calls w1) ∧
    flattenSelection srv2 projectId w2 = (r, emits calls w2).
Proof.
  intros Hchange Hdiff Hlines Hsel.
  assert (Hfind : ∀ path hunk,
    findHunkDiff srv1 projectId path hunk = findHunkDiff srv2 projectId path hunk).
  { intros path hunk. unfold findHunkDiff, mbind, Calls_bind, await.
    rewrite Hchange.
    destruct (fetchChange srv2 projectId path) as [[change|]|e]; [|done..].
    by rewrite Hdiff. }
  assert (Hhunks : ∀ path hunks acc,
    forHunks srv1 projectId path hunks acc = forHunks srv2 projectId path hunks acc).
  { intros path hunks. induction hunks as [|hunk rest IH]; intros acc; simpl; [done|].
    destruct hunk as [h|h lines]; [done|].
    rewrite Hfind. unfold mbind, Calls_bind, lift.
    destruct (findHunkDiff srv2 projectId path (HunkPartial h lines))
      as [[[hunkDiff|]|e] calls]; [|done..].
    rewrite Hlines.
    destruct (lineIdsToHunkHeaders srv2 lines (diff hunkDiff) "commit"); [|done].
    by rewrite IH. }
  assert (Hitems : ∀ items acc,
    forItems srv1 projectId items acc = forItems srv2 projectId items acc).
  { intros items. induction items as [|item rest IH]; intros acc; simpl; [done|].
    destruct (SelectedFile.selection item) as [|hunks]; [done|].
    rewrite Hhunks. unfold mbind, Calls_bind.
    destruct (forHunks srv2 projectId (SelectedFile.path item) hunks [])
      as [[hs|e] calls]; [|done].
    by rewrite IH. }
  unfold flattenSelection, mbind, M_bind, gets, perform.
  rewrite Hsel, Hitems.
  destruct (forItems srv2 projectId (selectedChanges (ui w2)) []) as [r calls].
  by exists r, calls.
Qed.

End Flattener.

Example scenarioA_flattened :
  flattenSelection (demoServices []) "p" (demoWorld scenarioA) =
    (Ok [ {| WorktreeChanges.pathBytes := [5%Z];
             WorktreeChanges.previousPathBytes := None;
             WorktreeChanges.hunkHeaders := [] |} ],
     demoWorld scenarioA).
Proof. reflexivity. Qed.

Example scenarioB_flattened :
  flattenSelection (demoServices []) "p" (demoWorld scenarioB) =
    (Ok [ {| WorktreeChanges.pathBytes := [5%Z];
             WorktreeChanges.previousPathBytes := None;
             WorktreeChanges.hunkHeaders := [coordinates 1 5 1 6] |} ],
     demoWorld scenarioB).
Proof. reflexivity. Qed.

(** Scenario C of the specification, followed by a fully selected hunk and
    a fully selected file. *)
Lemma flattenSelection_entries_witness :
  ∃ callss,
    Forall3 (fileYields (demoServices []) "p") scenarioC
      [ {| WorktreeChanges.pathBytes := [5%Z];
           WorktreeChanges.previousPathBytes := None;
           WorktreeChanges.hunkHeaders := [coordinates 10 3 10 3; coordinates 1 5 1 6] |};
        {| WorktreeChanges.pathBytes := [5%Z];
           WorktreeChanges.previousPathBytes := None;
           WorktreeChanges.hunkHeaders := [] |} ] callss ∧
    emits [FetchChangeCall "p" "fileC"; FetchDiffCall "p" "fileC"] (demoWorld scenarioC) =
    emits (concat callss) (demoWorld scenarioC).
Proof.
  apply (proj1 (flattenSelection_entries (demoServices []) "p" (demoWorld scenarioC) _ _)).
  reflexivity.
Defined.

(** The same selection flattened against collaborators that differ only in
    how commits are answered. *)
Lemma flattening_deterministic_witness :
  ∃ r calls,
    flattenSelection (demoServices []) "p" (demoWorld scenarioC) =
      (r, emits calls (demoWorld scenarioC)) ∧
    flattenSelection (demoServices [("locked", "fileD")]) "p"
      {| ui := ui (demoWorld scenarioC); trace := [ShowToast "hello" "info"] |} =
      (r, emits calls {| ui := ui (demoWorld scenarioC); trace := [ShowToast "hello" "info"] |}).
Proof.
  apply (flattening_deterministic (demoServices []) (demoServices [("locked", "fileD")]));
    reflexivity.
Defined.

(** ** Runs of [createCommit] *)

Section Runs.

Context {TreeChange : Type}.
Variable srv : Services TreeChange.
Variable projectId : string.

Lemma emits_emits (evs1 evs2 : list (Event TreeChange)) w :
  emits evs2 (emits evs1 w) = emits (evs1 ++ evs2) w.
Proof. unfold emits. simpl. by rewrite app_assoc. Qed.

Lemma truthy_Some s : truthy (Some s) = true ↔ s ≠ "".
Proof.
  simpl. destruct (String.eqb_spec s ""); simpl; split; congruence.
Qed.

Lemma require_truthy v msg (w : World TreeChange) :
  require v msg w =
    match v with
    | Some s => if truthy v then (Ok s, w) else (Throw (Error msg), w)
    | None => (Throw (Error msg), w)
    end.
Proof.
  destruct v as [s|]; [|done]. simpl. by destruct (String.eqb s "").
Qed.

Lemma createCommit_run stackId message w r w' :
  createCommit srv projectId stackId message w = (r, w') →
  CommitRun srv projectId stackId message w r w'.
Proof.
  unfold createCommit, mbind, M_bind.
  destruct (resolveTarget srv projectId stackId w) as [[[s b]|e] w1] eqn:Hres.
  2: { intros [= <- <-]. by constructor. }
  unfold flattenSelection, mbind, M_bind, gets, perform.
  destruct (forItems srv projectId (selectedChanges (ui w1)) [])
    as [[changes|e] calls] eqn:Hflat; simpl.
  2: { intros [= <- <-]. by econstructor. }
  unfold commitChanges, mbind, M_bind, gets, perform, await, modify, notify,
    mret, M_ret. simpl.
  fold (commitRequest projectId stackId message s b changes (ui w1)).
  destruct (createCommitInStack srv
              (commitRequest projectId stackId message s b changes (ui w1)))
    as [response|e] eqn:Hcommit.
  2: { intros [= <- <-]. rewrite emits_emits. by econstructor. }
  pose proof (run_committed srv projectId stackId message w s b w1 changes calls
                response Hres Hflat Hcommit) as Hrun.
  unfold warning in Hrun.
  destruct (0 <? length (CommitResponse.pathsToRejectedChanges response))%nat;
    intros [= <- <-]; unfold emits, committed in *; simpl in *;
    rewrite <- ?app_assoc; exact Hrun.
Qed.

(** *** Target resolution, case by case *)

Lemma js_or_idem a b : js_or (js_or a b) b = js_or a b.
Proof. unfold js_or. destruct (truthy a) eqn:Ha; [by rewrite Ha|]. by destruct (truthy b). Qed.

Lemma resolveTarget_explicit stackId s w :
  stackId = Some s → s ≠ "" →
  resolveTarget srv projectId stackId w =
    (match selectedBranchName srv projectId stackId (ui w) with
     | Some b => if truthy (Some b) then Ok (s, b) else Throw (Error "No branch selected!")
     | None => Throw (Error "No branch selected!")
     end, w).
Proof.
  intros -> Hs. apply String.eqb_neq in Hs.
  unfold resolveTarget, mbind, M_bind, gets, mret, M_ret, selectedBranchName,
    topBranchName, selection.
  simpl. rewrite !Hs. simpl. rewrite Hs, js_or_idem. unfold mret, M_ret.
  destruct (js_or _ _) as [b|]; [|done]. simpl.
  by destruct (String.eqb b "").
Qed.

Lemma resolveTarget_new stackId w :
  truthy stackId = false →
  resolveTarget srv projectId stackId w =
    let req := {| NewStackRequest.projectId := projectId;
                  NewStackRequest.branchName := draftBranchName (ui w) |} in
    match createNewStack srv req with
    | Throw e => (Throw e, emits [NewStackCall req] w)
    | Ok stack =>
        (if truthy (Some (Stack.id stack))
         then match head (Stack.heads stack) with
              | Some b => if truthy (Some (name b))
                          then Ok (Stack.id stack, name b)
                          else Throw (Error "No branch selected!")
              | None => Throw (Error "No branch selected!")
              end
         else Throw (Error "No stack selected!"),
         {| ui := stackCreated stack (ui w); trace := trace w ++ [NewStackCall req] |})
    end.
Proof.
  intros Hsid.
  unfold resolveTarget, mbind, M_bind, gets, perform, await, modify, mret, M_ret.
  rewrite Hsid. simpl.
  destruct (createNewStack srv _) as [stack|e]; [|done].
  rewrite require_truthy. fold (stackCreated stack (ui w)). simpl.
  destruct (String.eqb (Stack.id stack) ""); simpl; [done|].
  destruct (head (Stack.heads stack)) as [b|]; [|done]. simpl.
  by destruct (String.eqb (name b) "").
Qed.

(** Resolution never touches the commit-scoped stores and calls nothing but
    stack creation. *)
Lemma resolveTarget_frame stackId w r w1 :
  resolveTarget srv projectId stackId w = (r, w1) →
  (∃ calls, trace w1 = trace w ++ calls ∧ Forall isNewStackCall calls) ∧
  selectedChanges (ui w1) = selectedChanges (ui w) ∧
  commitTitle (ui w1) = commitTitle (ui w) ∧
  commitDescription (ui w1) = commitDescription (ui w) ∧
  drawerPage (ui w1) = drawerPage (ui w) ∧
  stackSelections (ui w1) = stackSelections (ui w).
Proof.
  destruct (truthy stackId) eqn:Hsid.
  - destruct stackId as [s|]; [|done].
    rewrite (resolveTarget_explicit (Some s) s w eq_refl); [|by apply truthy_Some].
    intros [= _ <-]. split; [|done]. exists []. by rewrite app_nil_r.
  - rewrite (resolveTarget_new stackId w Hsid). simpl.
    destruct (createNewStack srv _) as [stack|e]; intros [= _ <-]; simpl;
      (split; [|done]); eexists; split; try done; by repeat constructor.
Qed.

(** *** What a run leaves behind *)

Lemma not_commit_call_new_stack (calls : list (Event TreeChange)) :
  Forall isNewStackCall calls → Forall (λ ev, ¬ isCommitCall ev) calls.
Proof. intros Hall. eapply Forall_impl; [done|]. intros []; simpl; tauto. Qed.

Lemma not_commit_call_lookup (calls : list (Event TreeChange)) :
  Forall isLookup calls → Forall (λ ev, ¬ isCommitCall ev) calls.
Proof. intros Hall. eapply Forall_impl; [done|]. intros []; simpl; tauto. Qed.

Lemma no_commit_call (calls : list (Event TreeChange)) req :
  Forall (λ ev, ¬ isCommitCall ev) calls → CreateCommitCall req ∉ calls.
Proof. intros Hall Hin. by apply (proj1 (Forall_forall _ _) Hall _ Hin). Qed.

(** A run that throws has written to none of the commit-scoped stores and
    has issued no commit call that resolved. *)
Lemma run_aborted stackId message w e w' :
  createCommit srv projectId stackId message w = (Throw e, w') →
  ui w' = ui (resolveTarget srv projectId stackId w).2 ∧
  ∃ calls, trace w' = trace w ++ calls ∧
    ∀ req, CreateCommitCall req ∈ calls →
           createCommitInStack srv req = Throw e.
Proof.
  intros Hrun. apply createCommit_run in Hrun.
  inversion Hrun as [e' w1 Hres|s b w1 e' calls Hres Hflat
                    |s b w1 changes calls e' Hres Hflat Hcommit|]; subst;
    rewrite Hres; simpl; (split; [done|]);
    destruct (resolveTarget_frame _ _ _ _ Hres) as ((calls0 & Htrace & Hnew) & _);
    rewrite Htrace, <- ?app_assoc; eexists; (split; [done|]); intros req Hin.
  - by apply no_commit_call in Hin; [|apply not_commit_call_new_stack].
  - pose proof (forItems_lookups srv projectId (selectedChanges (ui w1)) []) as Hl.
    rewrite Hflat in Hl.
    apply no_commit_call in Hin; [done|].
    apply Forall_app. split; [by apply not_commit_call_new_stack
                             |by apply not_commit_call_lookup].
  - pose proof (forItems_lookups srv projectId (selectedChanges (ui w1)) []) as Hl.
    rewrite Hflat in Hl. rewrite !elem_of_app, list_elem_of_singleton in Hin.
    destruct Hin as [Hin|[Hin|[= ->]]]; [| |done].
    + by apply no_commit_call in Hin; [|apply not_commit_call_new_stack].
    + by apply no_commit_call in Hin; [|apply not_commit_call_lookup].
Qed.

(** A run whose commit call resolved ends well, with the five writes done
    and the warning last. *)
Lemma run_resolved stackId message w r w' calls req response :
  createCommit srv projectId stackId message w = (r, w') →
  trace w' = trace w ++ calls →
  CreateCommitCall req ∈ calls →
  createCommitInStack srv req = Ok response →
  r = Ok tt ∧
  ui w' = committed (CommitRequest.stackId req) (CommitRequest.stackBranchName req)
            (CommitResponse.newCommit response)
            (ui (resolveTarget srv projectId stackId w).2) ∧
  ∃ before, trace w' = before ++ CreateCommitCall req :: warning response.
Proof.
  intros Hrun Htrace Hin Hok.
  destruct r as [[]|e].
  2: { destruct (run_aborted _ _ _ _ _ Hrun) as (_ & calls' & Htrace' & Hthrow).
       rewrite Htrace in Htrace'. apply app_inv_head in Htrace' as <-.
       rewrite (Hthrow _ Hin) in Hok. done. }
  apply createCommit_run in Hrun.
  inversion Hrun as [| | |s b w1 changes lookups response' Hres Hflat Hcommit]; subst.
  destruct (resolveTarget_frame _ _ _ _ Hres) as ((calls0 & Htrace0 & Hnew) & _).
  simpl in Htrace. rewrite Htrace0, <- app_assoc in Htrace.
  apply app_inv_head in Htrace as <-.
  pose proof (forItems_lookups srv projectId (selectedChanges (ui w1)) []) as Hl.
  rewrite Hflat in Hl. simpl in Hl.
  rewrite !elem_of_app, elem_of_cons in Hin.
  destruct Hin as [Hin|[Hin|[[= ->]|Hin]]].
  - by apply no_commit_call in Hin; [|apply not_commit_call_new_stack].
  - by apply no_commit_call in Hin; [|apply not_commit_call_lookup].
  - rewrite Hcommit in Hok. injection Hok as ->.
    rewrite Hres. simpl. split; [done|]. split; [done|].
    exists (trace w1 ++ lookups). by rewrite <- app_assoc.
  - unfold warning in Hin.
    destruct (0 <? _)%nat; [|by apply elem_of_nil in Hin].
    by apply list_elem_of_singleton in Hin.
Qed.

End Runs.

(** ** The commit assembler *)

Section Assembler.

Context {TreeChange : Type}.
Variable srv : Services TreeChange.
Variable projectId : string.

(** C2.  When the selection holds a partially selected hunk whose Diff
    Lookup does not find a hunk (no hunk of the fresh diff has its
    coordinates, the diff is not a patch, or the lookup throws),
    [createCommit] throws without having issued the commit call, and
    [handleCommitCreation] reports the thrown error with "Failed to
    commit". *)
Theorem stale_hunk_aborts_commit (stackId : option string) (message : string)
    (w : World TreeChange) (item : SelectedFile.t) (hunks : list SelectedHunk)
    (h : HunkHeader) (lines : list LineId) :
  message ≠ "" →
  item ∈ selectedChanges (ui w) →
  SelectedFile.selection item = PartialFile hunks →
  HunkPartial h lines ∈ hunks →
  (∀ hunkDiff,
     (findHunkDiff srv projectId (SelectedFile.path item) (HunkPartial h lines)).1
       ≠ Ok (Some hunkDiff)) →
  ∃ e w' calls,
    createCommit srv projectId stackId message w = (Throw e, w') ∧
    trace w' = trace w ++ calls ∧
    Forall (λ ev, ¬ isCommitCall ev) calls ∧
    handleCommitCreation srv projectId stackId (Some message) w =
      (Ok tt, emits [ShowError "Failed to commit" (Caught e)] w').
Proof.
  intros Hmsg Hitem Hsel Hhunk Hfail.
  assert (Hhandle : ∀ e w',
    createCommit srv projectId stackId message w = (Throw e, w') →
    handleCommitCreation srv projectId stackId (Some message) w =
      (Ok tt, emits [ShowError "Failed to commit" (Caught e)] w')).
  { intros e w' Hrun. unfold handleCommitCreation.
    rewrite (proj2 (truthy_Some message) Hmsg).
    unfold try_catch. by rewrite Hrun. }
  destruct (createCommit srv projectId stackId message w) as [r w'] eqn:Hrun.
  pose proof (createCommit_run _ _ _ _ _ _ _ Hrun) as Hcases.
  inversion Hcases as [e w1 Hres|s b w1 e calls Hres Hflat
                      |s b w1 changes calls e Hres Hflat Hcommit
                      |s b w1 changes calls response Hres Hflat Hcommit]; subst;
    destruct (resolveTarget_frame _ _ _ _ _ _ Hres)
      as ((calls0 & Htrace & Hnew) & Hitems & _).
  - exists e, w', calls0. repeat split; auto using not_commit_call_new_stack.
  - exists e, (emits calls w1), (calls0 ++ calls). simpl.
    rewrite Htrace, app_assoc. repeat split; auto.
    pose proof (forItems_lookups srv projectId (selectedChanges (ui w1)) []) as Hl.
    rewrite Hflat in Hl. apply Forall_app.
    auto using not_commit_call_new_stack, not_commit_call_lookup.
  - rewrite <- Hitems in Hitem.
    destruct (forItems_fails srv projectId _ _ _ _ [] Hitem Hsel Hhunk) as [e' He'];
      [by eauto|done|]. by rewrite Hflat in He'.
  - rewrite <- Hitems in Hitem.
    destruct (forItems_fails srv projectId _ _ _ _ [] Hitem Hsel Hhunk) as [e' He'];
      [by eauto|done|]. by rewrite Hflat in He'.
Qed.

(** C3.  With a stack id given (a non-empty string), the target is that
    stack and the branch last selected in it or, when there is none, its
    top branch; the run continues from the unchanged world.  Without a
    stack id a stack is created from the draft branch name, and the target
    is the new stack and its first head.  A missing stack id after
    creation throws "No stack selected!", a missing branch name throws
    "No branch selected!", in either case with nothing flattened and
    nothing committed: the only call made so far is the stack creation. *)
Theorem target_resolution (stackId : option string) (message : string)
    (w : World TreeChange) :
  (∀ s, stackId = Some s → s ≠ "" →
     let branch :=
       js_or (StackSelection.branchName <$> stackSelections (ui w) !! s)
             (bs ← branches srv projectId s; b ← head bs; Some (name b)) in
     (∀ b, branch = Some b → b ≠ "" →
        resolveTarget srv projectId stackId w = (Ok (s, b), w) ∧
        createCommit srv projectId stackId message w =
          (flattenSelection srv projectId
             ≫= commitChanges srv projectId stackId message s b) w) ∧
     (truthy branch = false →
        createCommit srv projectId stackId message w =
          (Throw (Error "No branch selected!"), w))) ∧
  (truthy stackId = false →
     ∀ stack,
       createNewStack srv {| NewStackRequest.projectId := projectId;
                             NewStackRequest.branchName := draftBranchName (ui w) |}
         = Ok stack →
       let w1 :=
         {| ui := set_draftBranchName None
                    (set_projectStackId (Some (Stack.id stack)) (ui w));
            trace := trace w ++
              [NewStackCall {| NewStackRequest.projectId := projectId;
                               NewStackRequest.branchName := draftBranchName (ui w) |}] |} in
       (Stack.id stack = "" →
          createCommit srv projectId stackId message w =
            (Throw (Error "No stack selected!"), w1)) ∧
       (Stack.id stack ≠ "" → truthy (name <$> head (Stack.heads stack)) = false →
          createCommit srv projectId stackId message w =
            (Throw (Error "No branch selected!"), w1)) ∧
       (Stack.id stack ≠ "" →
        ∀ b, head (Stack.heads stack) = Some b → name b ≠ "" →
          resolveTarget srv projectId stackId w = (Ok (Stack.id stack, name b), w1) ∧
          createCommit srv projectId stackId message w =
            (flattenSelection srv projectId
               ≫= commitChanges srv projectId stackId message (Stack.id stack) (name b)) w1)).
Proof.
  split.
  - intros s -> Hs branch.
    pose proof (resolveTarget_explicit srv projectId (Some s) s w eq_refl Hs) as Hres.
    assert (Hbranch : selectedBranchName srv projectId (Some s) (ui w) = branch).
    { unfold selectedBranchName, topBranchName, selection.
      by rewrite (proj2 (truthy_Some s) Hs). }
    rewrite Hbranch in Hres. split.
    + intros b Hb Hne. rewrite Hb, (proj2 (truthy_Some b) Hne) in Hres.
      split; [done|]. unfold createCommit, mbind at 1, M_bind at 1. by rewrite Hres.
    + intros Hfalse. unfold createCommit, mbind at 1, M_bind at 1. rewrite Hres.
      destruct branch as [b|]; [|done]. by rewrite Hfalse.
  - intros Hsid stack Hstack w1.
    pose proof (resolveTarget_new srv projectId stackId w Hsid) as Hres.
    cbv zeta in Hres. rewrite Hstack in Hres.
    unfold stackCreated in Hres. fold w1 in Hres.
    unfold createCommit, mbind at 1 3 5, M_bind at 1 3 5. rewrite Hres.
    split; [|split].
    + intros ->. done.
    + intros Hid Hfalse. rewrite (proj2 (truthy_Some _) Hid).
      destruct (head (Stack.heads stack)) as [b|]; [|done].
      simpl in Hfalse. simpl. by rewrite Hfalse.
    + intros Hid b -> Hb. by rewrite (proj2 (truthy_Some _) Hid), (proj2 (truthy_Some _) Hb).
Qed.

(** C4.  In a run of [createCommit] whose commit call resolves, the run
    ends without an error and afterwards the selection of the target stack
    is the target branch with the new commit, the change selection is
    empty, the saved commit title and description are empty and the drawer
    page is unset. *)
Theorem commit_success_effects (stackId : option string) (message : string)
    (w w' : World TreeChange) (r : Result unit) (calls : list (Event TreeChange))
    (req : CommitRequest.t) (response : CommitResponse.t) :
  createCommit srv projectId stackId message w = (r, w') →
  trace w' = trace w ++ calls →
  CreateCommitCall req ∈ calls →
  createCommitInStack srv req = Ok response →
  r = Ok tt ∧
  stackSelections (ui w') !! CommitRequest.stackId req =
    Some {| StackSelection.branchName := CommitRequest.stackBranchName req;
            StackSelection.commitId := Some (CommitResponse.newCommit response) |} ∧
  selectedChanges (ui w') = [] ∧
  commitTitle (ui w') = "" ∧
  commitDescription (ui w') = "" ∧
  drawerPage (ui w') = None.
Proof.
  intros Hrun Htrace Hin Hok.
  destruct (run_resolved _ _ _ _ _ _ _ _ _ _ Hrun Htrace Hin Hok) as (-> & -> & _).
  split; [done|]. simpl. by rewrite lookup_insert_eq.
Qed.

(** C5.  When the resolved commit call reports rejected paths, the run
    still ends without an error and with every effect of a successful
    commit, and the last thing it does after the commit call is to show
    the error "Some changes were not committed", whose text lists the
    rejected paths, one per line and in order, under a fixed first line. *)
Theorem rejected_paths_warning (stackId : option string) (message : string)
    (w w' : World TreeChange) (r : Result unit) (calls : list (Event TreeChange))
    (req : CommitRequest.t) (response : CommitResponse.t) :
  createCommit srv projectId stackId message w = (r, w') →
  trace w' = trace w ++ calls →
  CreateCommitCall req ∈ calls →
  createCommitInStack srv req = Ok response →
  CommitResponse.pathsToRejectedChanges response ≠ [] →
  r = Ok tt ∧
  stackSelections (ui w') !! CommitRequest.stackId req =
    Some {| StackSelection.branchName := CommitRequest.stackBranchName req;
            StackSelection.commitId := Some (CommitResponse.newCommit response) |} ∧
  selectedChanges (ui w') = [] ∧
  commitTitle (ui w') = "" ∧
  commitDescription (ui w') = "" ∧
  drawerPage (ui w') = None ∧
  ∃ before,
    trace w' = before ++
      [CreateCommitCall req;
       ShowError "Some changes were not committed"
         (Text ("The following files were not committed becuase they are locked to another branch:"
                +:+ LF +:+
                String.concat LF (map snd (CommitResponse.pathsToRejectedChanges response))))].
Proof.
  intros Hrun Htrace Hin Hok Hrejected.
  destruct (run_resolved _ _ _ _ _ _ _ _ _ _ Hrun Htrace Hin Hok)
    as (-> & -> & before & Hlast).
  split; [done|]. simpl. rewrite lookup_insert_eq. repeat (split; [done|]).
  exists before. rewrite Hlast. unfold warning.
  by destruct (CommitResponse.pathsToRejectedChanges response).
Qed.

(** C7.  When the composed message is missing or empty,
    [handleCommitCreation] shows the error toast "Commit message is
    required" and does nothing else: no store is written and no
    collaborator is called. *)
Theorem missing_message_rejected (stackId : option string) (message : option string)
    (w : World TreeChange) :
  truthy message = false →
  handleCommitCreation srv projectId stackId message w =
    (Ok tt, {| ui := ui w;
               trace := trace w ++ [ShowToast "Commit message is required" "error"] |}).
Proof.
  intros Hempty. unfold handleCommitCreation.
  destruct message as [m|]; [|done]. by rewrite Hempty.
Qed.

(** C9.  A run of [createCommit] that throws leaves the change selection,
    the saved commit title and description, the drawer page and the
    selections of all stacks as they were. *)
Theorem abort_keeps_commit_state (stackId : option string) (message : string)
    (w w' : World TreeChange) (e : Exn) :
  createCommit srv projectId stackId message w = (Throw e, w') →
  selectedChanges (ui w') = selectedChanges (ui w) ∧
  commitTitle (ui w') = commitTitle (ui w) ∧
  commitDescription (ui w') = commitDescription (ui w) ∧
  drawerPage (ui w') = drawerPage (ui w) ∧
  stackSelections (ui w') = stackSelections (ui w).
Proof.
  intros Hrun. destruct (run_aborted _ _ _ _ _ _ _ Hrun) as (-> & _).
  destruct (resolveTarget srv projectId stackId w) as [r w1] eqn:Hres.
  by destruct (resolveTarget_frame _ _ _ _ _ _ Hres) as (_ & ? & ? & ? & ? & ?).
Qed.

(** C10.  Without a stack id, once the stack is created the project's
    selected stack is the new stack and the draft branch name is unset
    before anything is flattened: at the end of resolution the only call
    made is the stack creation.  However the run ends, with an error or
    without, both writes are still in place. *)
Theorem created_stack_survives_abort (stackId : option string) (message : string)
    (w w' : World TreeChange) (r : Result unit) (stack : Stack.t) :
  truthy stackId = false →
  createNewStack srv {| NewStackRequest.projectId := projectId;
                        NewStackRequest.branchName := draftBranchName (ui w) |}
    = Ok stack →
  createCommit srv projectId stackId message w = (r, w') →
  ∃ w1 calls,
    (resolveTarget srv projectId stackId w).2 = w1 ∧
    trace w1 = trace w ++
      [NewStackCall {| NewStackRequest.projectId := projectId;
                       NewStackRequest.branchName := draftBranchName (ui w) |}] ∧
    projectStackId (ui w1) = Some (Stack.id stack) ∧
    draftBranchName (ui w1) = None ∧
    trace w' = trace w1 ++ calls ∧
    Forall (λ ev, ¬ isNewStackCall ev) calls ∧
    projectStackId (ui w') = Some (Stack.id stack) ∧
    draftBranchName (ui w') = None.
Proof.
  intros Hsid Hstack Hrun.
  pose proof (resolveTarget_new srv projectId stackId w Hsid) as Hres.
  cbv zeta in Hres. rewrite Hstack in Hres.
  assert (Hlookup : ∀ calls : list (Event TreeChange),
            Forall isLookup calls → Forall (λ ev, ¬ isNewStackCall ev) calls).
  { intros calls Hall. eapply Forall_impl; [done|]. intros []; simpl; tauto. }
  apply createCommit_run in Hrun.
  inversion Hrun as [e w1 Hres'|s b w1 e calls Hres' Hflat
                    |s b w1 changes calls e Hres' Hflat Hcommit
                    |s b w1 changes calls response Hres' Hflat Hcommit]; subst;
    rewrite Hres' in Hres; injection Hres as _ ->;
    pose proof (forItems_lookups srv projectId
                  (selectedChanges (stackCreated stack (ui w))) []) as Hl;
    simpl in *; try rewrite Hflat in Hl; simpl in Hl; rewrite Hres'.
  - eexists _, []. rewrite app_nil_r. by repeat split.
  - eexists _, calls. repeat split; auto.
  - eexists _, _. repeat split; auto.
    apply Forall_app. split; [auto|]. constructor; [simpl; tauto|constructor].
  - eexists _, _. repeat split; auto.
    apply Forall_app. split; [auto|]. constructor; [simpl; tauto|].
    unfold warning.
    destruct (0 <? _)%nat; constructor; [simpl; tauto|constructor].
Qed.

End Assembler.

(** ** The scenarios, run *)

(** Scenario D: the hunk at (10,4,12,4) is not in the diff of [fileC]. *)
Lemma stale_hunk_aborts_commit_witness :
  ∃ e w' calls,
    createCommit (demoServices []) "p" None "msg" (demoWorld scenarioD) = (Throw e, w') ∧
    trace w' = trace (demoWorld scenarioD) ++ calls ∧
    Forall (λ ev, ¬ isCommitCall ev) calls ∧
    handleCommitCreation (demoServices []) "p" None (Some "msg") (demoWorld scenarioD) =
      (Ok tt, emits [ShowError "Failed to commit" (Caught e)] w').
Proof.
  apply (stale_hunk_aborts_commit (demoServices []) "p" None "msg" (demoWorld scenarioD)
           (demoFile "fileC" (PartialFile [ HunkPartial (coordinates 10 4 12 4) demoLines ]))
           [ HunkPartial (coordinates 10 4 12 4) demoLines ]
           (coordinates 10 4 12 4) demoLines).
  - discriminate.
  - apply elem_of_cons. right. apply list_elem_of_singleton. reflexivity.
  - reflexivity.
  - apply list_elem_of_singleton. reflexivity.
  - intros hunkDiff. vm_compute. discriminate.
Defined.

(** A given stack with a selected branch, and no stack at all. *)
Lemma target_resolution_witness :
  resolveTarget (demoServices []) "p" (Some "stack-0") (demoWorld scenarioC) =
    (Ok ("stack-0", "feature"), demoWorld scenarioC) ∧
  resolveTarget (demoServices []) "p" None (demoWorld scenarioC) =
    (Ok ("stack-1", "draft"),
     {| ui := set_draftBranchName None
                (set_projectStackId (Some "stack-1") (ui (demoWorld scenarioC)));
        trace := [NewStackCall {| NewStackRequest.projectId := "p";
                                  NewStackRequest.branchName := Some "draft" |}] |}).
Proof.
  split.
  - destruct (target_resolution (demoServices []) "p" (Some "stack-0") "msg"
                (demoWorld scenarioC)) as (Hgiven & _).
    destruct (Hgiven "stack-0" eq_refl) as (Hbranch & _); [discriminate|].
    apply (Hbranch "feature"); [reflexivity|discriminate].
  - destruct (target_resolution (demoServices []) "p" None "msg"
                (demoWorld scenarioC)) as (_ & Hnew).
    destruct (Hnew eq_refl
                {| Stack.id := "stack-1"; Stack.heads := [ {| name := "draft" |} ] |}
                eq_refl) as (_ & _ & Hhead).
    apply (Hhead ltac:(discriminate) {| name := "draft" |} eq_refl). discriminate.
Defined.

(** Scenario C committed on a new stack. *)
Lemma commit_success_effects_witness :
  (createCommit (demoServices []) "p" None "msg" (demoWorld scenarioC)).1 = Ok tt ∧
  stackSelections (ui (createCommit (demoServices []) "p" None "msg" (demoWorld scenarioC)).2)
    !! "stack-1" =
    Some {| StackSelection.branchName := "draft"; StackSelection.commitId := Some "c0ffee" |} ∧
  selectedChanges (ui (createCommit (demoServices []) "p" None "msg" (demoWorld scenarioC)).2)
    = [] ∧
  commitTitle (ui (createCommit (demoServices []) "p" None "msg" (demoWorld scenarioC)).2)
    = "" ∧
  commitDescription (ui (createCommit (demoServices []) "p" None "msg" (demoWorld scenarioC)).2)
    = "" ∧
  drawerPage (ui (createCommit (demoServices []) "p" None "msg" (demoWorld scenarioC)).2)
    = None.
Proof.
  apply (commit_success_effects (demoServices []) "p" None "msg" (demoWorld scenarioC)
           _ _ (scenarioCalls "msg") (scenarioRequest "msg")
           {| CommitResponse.newCommit := "c0ffee";
              CommitResponse.pathsToRejectedChanges := [] |}).
  - reflexivity.
  - reflexivity.
  - do 3 (apply elem_of_cons; right). apply list_elem_of_singleton. reflexivity.
  - reflexivity.
Defined.

(** Scenario E: [fileD] is locked to another branch. *)
Lemma rejected_paths_warning_witness :
  (createCommit (demoServices [("locked", "fileD")]) "p" None "msg" (demoWorld scenarioC)).1
    = Ok tt ∧
  ∃ before,
    trace (createCommit (demoServices [("locked", "fileD")]) "p" None "msg"
             (demoWorld scenarioC)).2 =
    before ++
      [CreateCommitCall (scenarioRequest "msg");
       ShowError "Some changes were not committed"
         (Text ("The following files were not committed becuase they are locked to another branch:"
                +:+ LF +:+ "fileD"))].
Proof.
  destruct (rejected_paths_warning (demoServices [("locked", "fileD")]) "p" None "msg"
              (demoWorld scenarioC) _ _ (scenarioCalls "msg" ++
                [ShowError rejectedTitle (Text (rejectedText [("locked", "fileD")]))])
              (scenarioRequest "msg")
              {| CommitResponse.newCommit := "c0ffee";
                 CommitResponse.pathsToRejectedChanges := [("locked", "fileD")] |}
              eq_refl eq_refl)
    as (Hok & _ & _ & _ & _ & _ & Hwarning).
  - do 3 (apply elem_of_cons; right). apply elem_of_cons. left. reflexivity.
  - reflexivity.
  - discriminate.
  - split; [exact Hok | exact Hwarning].
Defined.

(** An empty message, and an editor that is not mounted. *)
Lemma missing_message_rejected_witness :
  handleCommitCreation (demoServices []) "p" None (Some "") (demoWorld scenarioC) =
    (Ok tt, {| ui := ui (demoWorld scenarioC);
               trace := [ShowToast "Commit message is required" "error"] |}) ∧
  handleCommitCreation (demoServices []) "p" (Some "stack-0") None (demoWorld scenarioC) =
    (Ok tt, {| ui := ui (demoWorld scenarioC);
               trace := [ShowToast "Commit message is required" "error"] |}).
Proof.
  split.
  - apply (missing_message_rejected (demoServices []) "p" None (Some "")). reflexivity.
  - apply (missing_message_rejected (demoServices []) "p" (Some "stack-0") None). reflexivity.
Defined.

(** The backend refuses the commit of scenario C. *)
Lemma abort_keeps_commit_state_witness :
  selectedChanges
    (ui (createCommit (demoServices []) "p" (Some "stack-0") "boom" (demoWorld scenarioC)).2)
    = scenarioC ∧
  commitTitle
    (ui (createCommit (demoServices []) "p" (Some "stack-0") "boom" (demoWorld scenarioC)).2)
    = "title" ∧
  commitDescription
    (ui (createCommit (demoServices []) "p" (Some "stack-0") "boom" (demoWorld scenarioC)).2)
    = "body" ∧
  drawerPage
    (ui (createCommit (demoServices []) "p" (Some "stack-0") "boom" (demoWorld scenarioC)).2)
    = Some "new-commit" ∧
  stackSelections
    (ui (createCommit (demoServices []) "p" (Some "stack-0") "boom" (demoWorld scenarioC)).2)
    = stackSelections (ui (demoWorld scenarioC)).
Proof.
  apply (abort_keeps_commit_state (demoServices []) "p" (Some "stack-0") "boom"
           (demoWorld scenarioC) _ (Error "backend refused")).
  reflexivity.
Defined.

(** The backend refuses the commit after the stack was created. *)
Lemma created_stack_survives_abort_witness :
  ∃ w1 calls,
    (resolveTarget (demoServices []) "p" None (demoWorld scenarioC)).2 = w1 ∧
    trace w1 = trace (demoWorld scenarioC) ++
      [NewStackCall {| NewStackRequest.projectId := "p";
                       NewStackRequest.branchName := Some "draft" |}] ∧
    projectStackId (ui w1) = Some "stack-1" ∧
    draftBranchName (ui w1) = None ∧
    trace (createCommit (demoServices []) "p" None "boom" (demoWorld scenarioC)).2 =
      trace w1 ++ calls ∧
    Forall (λ ev, ¬ isNewStackCall ev) calls ∧
    projectStackId
      (ui (createCommit (demoServices []) "p" None "boom" (demoWorld scenarioC)).2)
      = Some "stack-1" ∧
    draftBranchName
      (ui (createCommit (demoServices []) "p" None "boom" (demoWorld scenarioC)).2)
      = None.
Proof.
  apply (created_stack_survives_abort (demoServices []) "p" None "boom"
           (demoWorld scenarioC) _ (Throw (Error "backend refused"))
           {| Stack.id := "stack-1"; Stack.heads := [ {| name := "draft" |} ] |});
    reflexivity.
Defined.

(** ** More on the flattening loops *)

Section FlattenerFurther.

Context {TreeChange : Type}.
Variable srv : Services TreeChange.
Variable projectId : string.

Lemma emits_nil (w : World TreeChange) : emits [] w = w.
Proof. destruct w as [u t]. unfold emits. simpl. by rewrite app_nil_r. Qed.

Lemma forHunks_app path earlier later acc :
  forHunks srv projectId path (earlier ++ later) acc =
    match forHunks srv projectId path earlier acc with
    | (Ok hs, calls) =>
        match forHunks srv projectId path later hs with
        | (r, calls') => (r, calls ++ calls')
        end
    | (Throw e, calls) => (Throw e, calls)
    end.
Proof.
  revert acc. induction earlier as [|hunk rest IH]; intros acc; simpl.
  - by destruct (forHunks srv projectId path later acc).
  - destruct hunk as [h|h lines]; [apply IH|].
    unfold mbind, Calls_bind, lift.
    destruct (findHunkDiff srv projectId path (HunkPartial h lines))
      as [[[hunkDiff|]|e] calls]; simpl; try done.
    destruct (lineIdsToHunkHeaders srv lines (diff hunkDiff) "commit") as [hs|e];
      simpl; [|done].
    rewrite IH.
    destruct (forHunks srv projectId path rest (acc ++ hs)) as [[hs'|e] calls1];
      [|done].
    destruct (forHunks srv projectId path later hs') as [r calls2].
    by rewrite app_assoc.
Qed.

Lemma forItems_app earlier later acc :
  forItems srv projectId (earlier ++ later) acc =
    match forItems srv projectId earlier acc with
    | (Ok changes, calls) =>
        match forItems srv projectId later changes with
        | (r, calls') => (r, calls ++ calls')
        end
    | (Throw e, calls) => (Throw e, calls)
    end.
Proof.
  revert acc. induction earlier as [|item rest IH]; intros acc; simpl.
  - by destruct (forItems srv projectId later acc).
  - destruct (SelectedFile.selection item) as [|hunks]; [apply IH|].
    unfold mbind, Calls_bind.
    destruct (forHunks srv projectId (SelectedFile.path item) hunks [])
      as [[hs|e] calls]; simpl; [|done].
    rewrite IH.
    match goal with |- context [forItems _ _ rest ?a] =>
      destruct (forItems srv projectId rest a) as [[changes|e] calls1] end; [|done].
    destruct (forItems srv projectId later changes) as [r calls2].
    by rewrite app_assoc.
Qed.

(** X1.  Flattening two selections one after the other: the second is
    flattened only if the first succeeded, its entries and calls follow
    those of the first, and an error of the first is the error of the
    whole, with none of the second's lookups made. *)
Theorem flattening_concatenation (earlier later : list SelectedFile.t) :
  forItems srv projectId (earlier ++ later) [] =
    match forItems srv projectId earlier [] with
    | (Ok changes, calls) =>
        match forItems srv projectId later [] with
        | (Ok changes', calls') => (Ok (changes ++ changes'), calls ++ calls')
        | (Throw e, calls') => (Throw e, calls ++ calls')
        end
    | (Throw e, calls) => (Throw e, calls)
    end.
Proof.
  rewrite forItems_app.
  destruct (forItems srv projectId earlier []) as [[changes|e] calls]; [|done].
  rewrite forItems_acc.
  by destruct (forItems srv projectId later []) as [[changes'|e] calls'].
Qed.

Lemma forHunks_full path hunks acc :
  Forall isFullHunk hunks →
  forHunks srv projectId path hunks acc = (Ok (acc ++ (hunkHeaderOf <$> hunks)), []).
Proof.
  intros Hfull. revert acc.
  induction Hfull as [|hunk rest Hhunk _ IH]; intros acc; simpl.
  - by rewrite app_nil_r.
  - destruct hunk as [h|h lines]; [|done]. by rewrite IH, <- app_assoc.
Qed.

Lemma forItems_whole items acc :
  Forall withoutPartialHunks items →
  forItems srv projectId items acc = (Ok (acc ++ (wholeEntry <$> items)), []).
Proof.
  intros Hwhole. revert acc.
  induction Hwhole as [|item rest Hitem _ IH]; intros acc; simpl.
  - by rewrite app_nil_r.
  - unfold withoutPartialHunks in Hitem. unfold wholeEntry at 1.
    destruct (SelectedFile.selection item) as [|hunks].
    + by rewrite IH, <- app_assoc.
    + rewrite (forHunks_full _ _ [] Hitem). unfold mbind, Calls_bind. simpl.
      by rewrite IH, <- app_assoc.
Qed.

(** X2.  A selection without partially selected hunks is flattened without
    calling anything and cannot fail, whatever the collaborators would
    answer: every file gives its entry, with no header when it is selected
    as a whole and with the coordinates of its hunks, in order, otherwise. *)
Theorem flattening_without_lookups (w : World TreeChange) :
  Forall withoutPartialHunks (selectedChanges (ui w)) →
  flattenSelection srv projectId w = (Ok (wholeEntry <$> selectedChanges (ui w)), w).
Proof.
  intros Hwhole. unfold flattenSelection, mbind, M_bind, gets, perform.
  rewrite (forItems_whole _ [] Hwhole). simpl. by rewrite emits_nil.
Qed.

(** *** Failing runs, exactly *)

Lemma hunkFails_run path hunk e calls later acc :
  hunkFails srv projectId path hunk e calls →
  forHunks srv projectId path (hunk :: later) acc = (Throw e, calls).
Proof.
  intros [h lines e' calls' Hfind|h lines calls' Hfind|h lines hunkDiff calls' e' Hfind Hlines];
    simpl; unfold mbind, Calls_bind, lift; rewrite Hfind; simpl;
    rewrite ?Hlines; simpl; by rewrite ?app_nil_r.
Qed.

Lemma forHunks_throws path hunks e calls :
  forHunks srv projectId path hunks [] = (Throw e, calls) ↔
  ∃ earlier hunk later hss callss fcalls,
    hunks = earlier ++ hunk :: later ∧
    Forall3 (hunkYields srv projectId path) earlier hss callss ∧
    hunkFails srv projectId path hunk e fcalls ∧
    calls = concat callss ++ fcalls.
Proof.
  split.
  - revert calls. induction hunks as [|hunk rest IH]; intros calls; simpl; [done|].
    destruct hunk as [h|h lines].
    + rewrite forHunks_acc.
      destruct (forHunks srv projectId path rest []) as [[l|e'] calls'];
        simpl; [done|]. intros [= -> ->].
      destruct (IH _ eq_refl) as (earlier & hunk & later & hss & callss & fcalls
                                  & -> & HF & Hfail & ->).
      exists (HunkFull h :: earlier), hunk, later, ([h] :: hss), ([] :: callss), fcalls.
      repeat split; [|done]. constructor; [constructor|done].
    + unfold mbind, Calls_bind, lift.
      destruct (findHunkDiff srv projectId path (HunkPartial h lines))
        as [[[hunkDiff|]|e'] fcalls] eqn:Hfind; simpl.
      * destruct (lineIdsToHunkHeaders srv lines (diff hunkDiff) "commit")
          as [hs|e'] eqn:Hlines; simpl.
        -- rewrite forHunks_acc.
           destruct (forHunks srv projectId path rest []) as [[l|e'] calls'];
             simpl; [done|]. intros [= -> <-].
           destruct (IH _ eq_refl) as (earlier & hunk & later & hss & callss & fcalls'
                                       & -> & HF & Hfail & ->).
           exists (HunkPartial h lines :: earlier), hunk, later,
                  (hs :: hss), (fcalls :: callss), fcalls'.
           repeat split; [|done|by simpl; rewrite app_assoc].
           constructor; [by econstructor|done].
        -- intros [= <- <-]. exists [], (HunkPartial h lines), rest, [], [], fcalls.
           rewrite app_nil_r.
           repeat split; [constructor|by econstructor].
      * intros [= <- <-]. exists [], (HunkPartial h lines), rest, [], [], fcalls.
        rewrite app_nil_r. repeat split; [constructor|by constructor].
      * intros [= <- <-]. exists [], (HunkPartial h lines), rest, [], [], fcalls.
        repeat split; [constructor|by constructor].
  - intros (earlier & hunk & later & hss & callss & fcalls & -> & HF & Hfail & ->).
    rewrite forHunks_app, (forHunks_complete _ _ _ _ _ _ HF).
    by rewrite (hunkFails_run _ _ _ _ later (concat hss) Hfail).
Qed.

Lemma fileFails_run item e calls later acc :
  fileFails srv projectId item e calls →
  forItems srv projectId (item :: later) acc = (Throw e, calls).
Proof.
  intros [item' earlier hunk after hss callss e' fcalls Hsel HF Hfail]. simpl.
  rewrite Hsel. unfold mbind, Calls_bind.
  assert (Hrun : forHunks srv projectId (SelectedFile.path item')
                   (earlier ++ hunk :: after) [] = (Throw e', concat callss ++ fcalls)).
  { apply forHunks_throws. by exists earlier, hunk, after, hss, callss, fcalls. }
  by rewrite Hrun.
Qed.

Lemma forItems_throws items e calls :
  forItems srv projectId items [] = (Throw e, calls) ↔
  ∃ before item after changes callss fcalls,
    items = before ++ item :: after ∧
    Forall3 (fileYields srv projectId) before changes callss ∧
    fileFails srv projectId item e fcalls ∧
    calls = concat callss ++ fcalls.
Proof.
  split.
  - revert calls. induction items as [|item rest IH]; intros calls; simpl; [done|].
    destruct (SelectedFile.selection item) as [|hunks] eqn:Hsel.
    + rewrite forItems_acc.
      destruct (forItems srv projectId rest []) as [[l|e'] calls'];
        simpl; [done|]. intros [= -> ->].
      destruct (IH _ eq_refl) as (before & item' & after & changes & callss & fcalls
                                  & -> & HF & Hfail & ->).
      eexists (item :: before), item', after, (_ :: changes), ([] :: callss), fcalls.
      repeat split; [|done]. constructor; [by constructor|done].
    + unfold mbind, Calls_bind.
      destruct (forHunks srv projectId (SelectedFile.path item) hunks [])
        as [[hs|e'] hcalls] eqn:Hhunks; simpl.
      * rewrite forItems_acc.
        destruct (forItems srv projectId rest []) as [[l|e'] calls'];
          simpl; [done|]. intros [= -> <-].
        destruct (IH _ eq_refl) as (before & item' & after & changes & callss & fcalls
                                    & -> & HF & Hfail & ->).
        destruct (forHunks_sound _ _ _ _ _ _ Hhunks) as (hss & callss' & HF' & -> & ->).
        eexists (item :: before), item', after, (_ :: changes),
                (concat callss' :: callss), fcalls.
        repeat split; [|done|by simpl; rewrite app_assoc].
        constructor; [by econstructor|done].
      * intros [= <- <-].
        apply forHunks_throws in Hhunks
          as (earlier & hunk & later & hss & callss & fcalls & -> & HF & Hfail & ->).
        exists [], item, rest, [], [], (concat callss ++ fcalls).
        repeat split; [constructor|by econstructor].
  - intros (before & item & after & changes & callss & fcalls & -> & HF & Hfail & ->).
    rewrite forItems_app, (forItems_complete _ _ _ _ _ HF).
    by rewrite (fileFails_run _ _ _ after changes Hfail).
Qed.

(** X3.  A run of the flattener throws [e] exactly when some file of the
    selection fails with [e] and every file before it gives its entry;
    the file fails at the first of its hunks whose lookup throws (with that
    error), finds nothing ("Hunk not found while commiting") or whose
    translation throws (with that error).  The calls made are those of the
    files and hunks before, then those of the failing lookup: nothing is
    looked up after the failure. *)
Theorem flattening_fails_at_first_failure (w w' : World TreeChange) (e : Exn) :
  flattenSelection srv projectId w = (Throw e, w') ↔
  ∃ before item after changes callss fcalls,
    selectedChanges (ui w) = before ++ item :: after ∧
    Forall3 (fileYields srv projectId) before changes callss ∧
    fileFails srv projectId item e fcalls ∧
    w' = emits (concat callss ++ fcalls) w.
Proof.
  unfold flattenSelection, mbind, M_bind, gets, perform. split.
  - destruct (forItems srv projectId (selectedChanges (ui w)) [])
      as [r calls] eqn:Hrun. simpl. intros [= -> <-].
    apply forItems_throws in Hrun
      as (before & item & after & changes & callss & fcalls & Hsel & HF & Hfail & ->).
    by exists before, item, after, changes, callss, fcalls.
  - intros (before & item & after & changes & callss & fcalls & Hsel & HF & Hfail & ->).
    assert (Hrun : forItems srv projectId (selectedChanges (ui w)) []
                   = (Throw e, concat callss ++ fcalls)).
    { apply forItems_throws. by exists before, item, after, changes, callss, fcalls. }
    by rewrite Hrun.
Qed.

(** *** What a successful run costs *)

Lemma findHunkDiff_ok_calls path hunk found calls :
  findHunkDiff srv projectId path hunk = (Ok found, calls) →
  ∃ change, fetchChange srv projectId path = Ok (Some change) ∧
            calls = [FetchChangeCall projectId path; FetchDiffCall projectId change].
Proof.
  unfold findHunkDiff, mbind, Calls_bind, await.
  destruct (fetchChange srv projectId path) as [[change|]|e]; simpl; try done.
  destruct (fetchDiff srv projectId change) as [[[hunks|kind]|]|e]; simpl; try done;
    intros [= _ <-]; by exists change.
Qed.

Lemma hunk_lookups path hunks hss callss :
  Forall3 (hunkYields srv projectId path) hunks hss callss →
  ∃ lookups,
    Forall2 (λ (ph : string * SelectedHunk) calls,
               ∃ change, fetchChange srv projectId ph.1 = Ok (Some change) ∧
                 calls = [FetchChangeCall projectId ph.1; FetchDiffCall projectId change])
            (partialHunksOf path hunks) lookups ∧
    concat callss = concat lookups.
Proof.
  induction 1 as [|hunk hs calls rest hss callss Hy _ (lookups & HF & Heq)].
  - exists []. by split; [constructor|].
  - destruct Hy as [h|h lines hunkDiff calls hs Hfind Hlines]; simpl.
    + by exists lookups.
    + exists (calls :: lookups). split; [|by rewrite Heq].
      constructor; [|done]. by apply findHunkDiff_ok_calls in Hfind.
Qed.

Lemma file_lookups items changes callss :
  Forall3 (fileYields srv projectId) items changes callss →
  ∃ lookups,
    Forall2 (λ (ph : string * SelectedHunk) calls,
               ∃ change, fetchChange srv projectId ph.1 = Ok (Some change) ∧
                 calls = [FetchChangeCall projectId ph.1; FetchDiffCall projectId change])
            (partialHunks items) lookups ∧
    concat callss = concat lookups.
Proof.
  induction 1 as [|item change calls rest changes callss Hy _ (lookups & HF & Heq)].
  - exists []. by split; [constructor|].
  - destruct Hy as [item Hsel|item hunks hss callss' Hsel Hhunks];
      unfold partialHunks; simpl; rewrite Hsel; fold (partialHunks rest).
    + by exists lookups.
    + destruct (hunk_lookups _ _ _ _ Hhunks) as (lookups' & HF' & Heq').
      exists (lookups' ++ lookups). split; [by apply Forall2_app|].
      by rewrite concat_app, Heq, Heq'.
Qed.

(** X4.  A successful run of the flattener makes exactly one change request
    and one diff request for every partially selected hunk, in the order of
    the selection and each time anew, also for hunks of one file; it makes
    no other call. *)
Theorem flattening_fetches_per_partial_hunk (w w' : World TreeChange)
    (changes : list WorktreeChanges.t) :
  flattenSelection srv projectId w = (Ok changes, w') →
  ∃ lookups,
    Forall2 (λ (ph : string * SelectedHunk) calls,
               ∃ change, fetchChange srv projectId ph.1 = Ok (Some change) ∧
                 calls = [FetchChangeCall projectId ph.1; FetchDiffCall projectId change])
            (partialHunks (selectedChanges (ui w))) lookups ∧
    w' = emits (concat lookups) w ∧
    length (trace w') =
      (length (trace w) + 2 * length (partialHunks (selectedChanges (ui w))))%nat.
Proof.
  unfold flattenSelection, mbind, M_bind, gets, perform.
  destruct (forItems srv projectId (selectedChanges (ui w)) []) as [r calls] eqn:Hrun.
  simpl. intros [= -> <-].
  destruct (forItems_sound _ _ _ _ _ Hrun) as (callss & HF & ->).
  destruct (file_lookups _ _ _ HF) as (lookups & Hlookups & ->).
  exists lookups. split; [done|]. split; [done|]. simpl.
  rewrite length_app. f_equal.
  clear -Hlookups. induction Hlookups as [|ph calls phs lookups (change & _ & ->) _ IH];
    simpl; [done|]. rewrite IH. lia.
Qed.

(** *** Looking up a hunk of the current diff *)

Lemma same_header (a b : DiffHunk) hunk :
  coordinatesMatch hunk a → coordinatesMatch hunk b → header a = header b.
Proof.
  intros (H1 & H2 & H3 & H4) (H1' & H2' & H3' & H4').
  destruct a as [[]], b as [[]]. simpl in *. congruence.
Qed.

Lemma NoDup_fmap_elem {A B} (f : A → B) (l : list A) x y :
  NoDup (f <$> l) → x ∈ l → y ∈ l → f x = f y → x = y.
Proof.
  induction l as [|z l IH]; simpl; [by intros _ ?%elem_of_nil|].
  intros [Hz Hnd]%NoDup_cons [->|Hx]%elem_of_cons [->|Hy]%elem_of_cons Heq; auto.
  - destruct Hz. rewrite Heq. by apply list_elem_of_fmap_2.
  - destruct Hz. rewrite <- Heq. by apply list_elem_of_fmap_2.
Qed.

(** X5.  A hunk selection that carries the coordinates of a hunk of the
    file's current patch is always found: the lookup returns a hunk of the
    patch with these coordinates, and that very hunk when no two hunks of
    the patch share their coordinates. *)
Theorem current_hunk_is_found (path : string) (change : TreeChange)
    (hunks : list DiffHunk) (hunkDiff : DiffHunk) (lines : list LineId) :
  fetchChange srv projectId path = Ok (Some change) →
  fetchDiff srv projectId change = Ok (Some (Patch hunks)) →
  hunkDiff ∈ hunks →
  ∃ found,
    findHunkDiff srv projectId path (HunkPartial (header hunkDiff) lines) =
      (Ok (Some found), [FetchChangeCall projectId path; FetchDiffCall projectId change]) ∧
    found ∈ hunks ∧
    header found = header hunkDiff ∧
    (NoDup (header <$> hunks) → found = hunkDiff).
Proof.
  intros Hchange Hdiff Hin.
  unfold findHunkDiff, mbind, Calls_bind, await. rewrite Hchange. simpl.
  rewrite Hdiff. simpl.
  assert (Hself : coordinatesMatch (HunkPartial (header hunkDiff) lines) hunkDiff)
    by done.
  destruct (List.find (sameCoordinates (HunkPartial (header hunkDiff) lines)) hunks)
    as [found|] eqn:Hfind.
  - apply find_first in Hfind as (before & after & -> & Hfound & _).
    apply sameCoordinates_spec in Hfound.
    assert (Hin' : found ∈ before ++ found :: after)
      by (apply elem_of_app; right; apply elem_of_cons; by left).
    pose proof (same_header _ _ _ Hfound Hself) as Hheader.
    exists found. repeat split; auto.
    intros Hnd. by apply (NoDup_fmap_elem header _ _ _ Hnd).
  - apply find_none_iff in Hfind.
    apply (proj1 (Forall_forall _ _) Hfind) in Hin.
    apply sameCoordinates_spec in Hself. congruence.
Qed.

End FlattenerFurther.

(** ** More on the commit assembler *)

Section AssemblerFurther.

Context {TreeChange : Type}.
Variable srv : Services TreeChange.
Variable projectId : string.

(** The call resolution makes: none with a stack id, the stack creation
    without. *)
Lemma resolveTarget_calls stackId (w w1 : World TreeChange) r :
  resolveTarget srv projectId stackId w = (r, w1) →
  (truthy stackId = true → w1 = w) ∧
  trace w1 = trace w ++
    (if truthy stackId then []
     else [NewStackCall {| NewStackRequest.projectId := projectId;
                           NewStackRequest.branchName := draftBranchName (ui w) |}]).
Proof.
  destruct (truthy stackId) eqn:Hsid.
  - destruct stackId as [s|]; [|done].
    rewrite (resolveTarget_explicit srv projectId (Some s) s w eq_refl);
      [|by apply truthy_Some].
    intros [= _ <-]. by rewrite app_nil_r.
  - rewrite (resolveTarget_new srv projectId stackId w Hsid). cbv zeta.
    destruct (createNewStack srv _) as [stack|e]; intros [= _ <-]; by split.
Qed.

(** Every run, call by call. *)
Lemma run_calls stackId message (w w' : World TreeChange) r :
  createCommit srv projectId stackId message w = (r, w') →
  ∃ lookups tail,
    trace w' = trace w ++
      (if truthy stackId then []
       else [NewStackCall {| NewStackRequest.projectId := projectId;
                             NewStackRequest.branchName := draftBranchName (ui w) |}])
      ++ lookups ++ tail ∧
    Forall isLookup lookups ∧
    ((tail = [] ∧ ∃ e, r = Throw e) ∨
     ∃ s b w1 changes,
       resolveTarget srv projectId stackId w = (Ok (s, b), w1) ∧
       forItems srv projectId (selectedChanges (ui w)) [] = (Ok changes, lookups) ∧
       ((∃ e, tail = [CreateCommitCall
                        (commitRequest projectId stackId message s b changes (ui w1))] ∧
              r = Throw e ∧ ui w' = ui w1 ∧
              createCommitInStack srv
                (commitRequest projectId stackId message s b changes (ui w1)) = Throw e) ∨
        (∃ response,
           tail = CreateCommitCall
                    (commitRequest projectId stackId message s b changes (ui w1))
                  :: warning response ∧
           r = Ok tt ∧
           ui w' = committed s b (CommitResponse.newCommit response) (ui w1) ∧
           createCommitInStack srv
             (commitRequest projectId stackId message s b changes (ui w1)) = Ok response))).
Proof.
  intros Hrun. apply createCommit_run in Hrun.
  inversion Hrun as [e w1 Hres|s b w1 e calls Hres Hflat
                    |s b w1 changes calls e Hres Hflat Hcommit
                    |s b w1 changes calls response Hres Hflat Hcommit]; subst;
    destruct (resolveTarget_calls _ _ _ _ Hres) as (_ & Htrace);
    destruct (resolveTarget_frame _ _ _ _ _ _ Hres) as (_ & Hsel & _);
    try (pose proof (forItems_lookups srv projectId (selectedChanges (ui w1)) []) as Hl;
         rewrite Hflat in Hl; simpl in Hl; rewrite Hsel in Hflat);
    simpl; rewrite Htrace, <- ?app_assoc.
  - exists [], []. rewrite !app_nil_r. split; [done|]. split; [constructor|]. left. eauto.
  - exists calls, []. rewrite !app_nil_r. split; [done|]. split; [done|]. left. eauto.
  - exists calls, [CreateCommitCall
                     (commitRequest projectId stackId message s b changes (ui w1))].
    split; [done|]. split; [done|]. right. exists s, b, w1, changes.
    split; [done|]. split; [done|]. left. by exists e.
  - eexists calls, (_ :: warning response).
    split; [done|]. split; [done|]. right. exists s, b, w1, changes.
    split; [done|]. split; [done|]. right. by exists response.
Qed.

Lemma created_not_commit stackId draft (req : CommitRequest.t) :
  CreateCommitCall req ∉
    (if truthy stackId then []
     else [@NewStackCall TreeChange
             {| NewStackRequest.projectId := projectId;
                NewStackRequest.branchName := draft |}]).
Proof.
  destruct (truthy stackId); [by apply not_elem_of_nil|].
  by intros [=]%list_elem_of_singleton.
Qed.

(** The commit call of a run, when there is one. *)
Lemma run_commit_call stackId message (w w' : World TreeChange) r calls req :
  createCommit srv projectId stackId message w = (r, w') →
  trace w' = trace w ++ calls →
  CreateCommitCall req ∈ calls →
  ∃ s b w1 changes lookups,
    resolveTarget srv projectId stackId w = (Ok (s, b), w1) ∧
    forItems srv projectId (selectedChanges (ui w)) [] = (Ok changes, lookups) ∧
    req = commitRequest projectId stackId message s b changes (ui w1) ∧
    ((∃ e, r = Throw e ∧ ui w' = ui w1 ∧ createCommitInStack srv req = Throw e ∧
           calls = (if truthy stackId then []
                    else [NewStackCall
                            {| NewStackRequest.projectId := projectId;
                               NewStackRequest.branchName := draftBranchName (ui w) |}])
                   ++ lookups ++ [CreateCommitCall req]) ∨
     (∃ response, r = Ok tt ∧
           ui w' = committed s b (CommitResponse.newCommit response) (ui w1) ∧
           createCommitInStack srv req = Ok response ∧
           calls = (if truthy stackId then []
                    else [NewStackCall
                            {| NewStackRequest.projectId := projectId;
                               NewStackRequest.branchName := draftBranchName (ui w) |}])
                   ++ lookups ++ CreateCommitCall req :: warning response)).
Proof.
  intros Hrun Htrace Hin.
  destruct (run_calls _ _ _ _ _ Hrun) as (lookups & tail & Htrace' & Hl & Htail).
  rewrite Htrace in Htrace'. apply app_inv_head in Htrace' as ->.
  rewrite !elem_of_app in Hin. destruct Hin as [Hin|[Hin|Hin]].
  { by apply created_not_commit in Hin. }
  { by apply no_commit_call in Hin; [|apply not_commit_call_lookup]. }
  destruct Htail as [[-> _]|(s & b & w1 & changes & Hres & Hflat & Hcases)];
    [by apply elem_of_nil in Hin|].
  exists s, b, w1, changes, lookups. split; [done|]. split; [done|].
  destruct Hcases as [(e & -> & -> & Hui & Hcommit)|(response & -> & -> & Hui & Hcommit)].
  - apply list_elem_of_singleton in Hin as [= ->]. split; [done|]. left. by exists e.
  - apply elem_of_cons in Hin as [[= ->]|Hin].
    + split; [done|]. right. by exists response.
    + unfold warning in Hin. destruct (0 <? _)%nat; [|by apply elem_of_nil in Hin].
      by apply list_elem_of_singleton in Hin.
Qed.

(** X6.  The commit call of a run carries the project, the message as
    given, the resolved target, the entries the flattener produced for the
    selection, and as parent the commit selected in the given stack: none
    when no stack id is given, so a commit on a newly created stack never
    has a parent. *)
Theorem commit_request_contents (stackId : option string) (message : string)
    (w w' : World TreeChange) (r : Result unit) (calls : list (Event TreeChange))
    (req : CommitRequest.t) :
  createCommit srv projectId stackId message w = (r, w') →
  trace w' = trace w ++ calls →
  CreateCommitCall req ∈ calls →
  CommitRequest.projectId req = projectId ∧
  CommitRequest.message req = message ∧
  (∃ w1, resolveTarget srv projectId stackId w =
           (Ok (CommitRequest.stackId req, CommitRequest.stackBranchName req), w1)) ∧
  (∃ callss, Forall3 (fileYields srv projectId) (selectedChanges (ui w))
               (CommitRequest.worktreeChanges req) callss) ∧
  (truthy stackId = false → CommitRequest.parentId req = None) ∧
  (∀ s, stackId = Some s → s ≠ "" →
     CommitRequest.stackId req = s ∧
     CommitRequest.parentId req =
       stackSelections (ui w) !! s ≫= StackSelection.commitId).
Proof.
  intros Hrun Htrace Hin.
  destruct (run_commit_call _ _ _ _ _ _ _ Hrun Htrace Hin)
    as (s & b & w1 & changes & lookups & Hres & Hflat & -> & _).
  destruct (resolveTarget_frame _ _ _ _ _ _ Hres) as (_ & _ & _ & _ & _ & Hsel).
  destruct (forItems_sound _ _ _ _ _ Hflat) as (callss & HF & _).
  simpl. repeat split; eauto.
  - unfold selectedCommitId, selection. intros Hsid.
    destruct stackId; [|done]. by rewrite Hsid.
  - destruct (resolveTarget_calls _ _ _ _ Hres) as (Hsame & _).
    subst stackId. rewrite Hsame in Hres by by apply truthy_Some.
    rewrite (resolveTarget_explicit srv projectId (Some s0) s0 w eq_refl H0) in Hres.
    destruct (selectedBranchName _ _ _ _) as [b'|]; [|done].
    destruct (truthy (Some b')); by simplify_eq.
  - subst stackId. unfold selectedCommitId, selection.
    by rewrite (proj2 (truthy_Some s0) H0), Hsel.
Qed.

(** X7.  The calls of a run come in a fixed order: the stack creation,
    made exactly when no stack id is given; then lookups only; then at
    most one commit call; then, only after a commit call, at most one
    warning about rejected paths. *)
Theorem calls_in_order (stackId : option string) (message : string)
    (w w' : World TreeChange) (r : Result unit) :
  createCommit srv projectId stackId message w = (r, w') →
  ∃ lookups tail,
    trace w' = trace w ++
      (if truthy stackId then []
       else [NewStackCall {| NewStackRequest.projectId := projectId;
                             NewStackRequest.branchName := draftBranchName (ui w) |}])
      ++ lookups ++ tail ∧
    Forall isLookup lookups ∧
    (tail = [] ∨
     ∃ req, tail = [CreateCommitCall req] ∨
       ∃ rejected, rejected ≠ [] ∧
         tail = [CreateCommitCall req;
                 ShowError rejectedTitle (Text (rejectedText rejected))]).
Proof.
  intros Hrun.
  destruct (run_calls _ _ _ _ _ Hrun) as (lookups & tail & Htrace & Hl & Htail).
  exists lookups, tail. split; [done|]. split; [done|].
  destruct Htail as [[-> _]|(s & b & w1 & changes & _ & _ & Hcases)]; [by left|].
  right. eexists.
  destruct Hcases as [(e & -> & _)|(response & -> & _)]; [by left|].
  unfold warning.
  destruct (CommitResponse.pathsToRejectedChanges response) as [|p rest] eqn:Hrej;
    simpl; [by left|].
  right. by exists (p :: rest).
Qed.

(** X8.  When no stack id is given and the stack creation is rejected, the
    run throws the reason of the rejection right after that call, having
    written nothing: the draft branch name is kept and the project's
    selected stack is unchanged. *)
Theorem stack_creation_rejected (stackId : option string) (message : string)
    (w : World TreeChange) (e : Exn) :
  truthy stackId = false →
  createNewStack srv {| NewStackRequest.projectId := projectId;
                        NewStackRequest.branchName := draftBranchName (ui w) |}
    = Throw e →
  createCommit srv projectId stackId message w =
    (Throw e,
     {| ui := ui w;
        trace := trace w ++
          [NewStackCall {| NewStackRequest.projectId := projectId;
                           NewStackRequest.branchName := draftBranchName (ui w) |}] |}).
Proof.
  intros Hsid Hstack.
  pose proof (resolveTarget_new srv projectId stackId w Hsid) as Hres.
  cbv zeta in Hres. rewrite Hstack in Hres.
  unfold createCommit, mbind at 1, M_bind at 1. by rewrite Hres.
Qed.

(** The notifications of a run. *)
Lemma run_notifications stackId message (w w' : World TreeChange) r calls ev :
  createCommit srv projectId stackId message w = (r, w') →
  trace w' = trace w ++ calls →
  ev ∈ calls → isNotification ev →
  ∃ req response,
    r = Ok tt ∧
    CreateCommitCall req ∈ calls ∧
    createCommitInStack srv req = Ok response ∧
    CommitResponse.pathsToRejectedChanges response ≠ [] ∧
    ev = ShowError rejectedTitle
           (Text (rejectedText (CommitResponse.pathsToRejectedChanges response))).
Proof.
  intros Hrun Htrace Hin Hnote.
  destruct (run_calls _ _ _ _ _ Hrun) as (lookups & tail & Htrace' & Hl & Htail).
  rewrite Htrace in Htrace'. apply app_inv_head in Htrace' as ->.
  rewrite !elem_of_app in Hin. destruct Hin as [Hin|[Hin|Hin]].
  { destruct (truthy stackId); [by apply elem_of_nil in Hin|].
    apply list_elem_of_singleton in Hin as ->. done. }
  { apply (proj1 (Forall_forall _ _) Hl) in Hin. by destruct ev. }
  destruct Htail as [[-> _]|(s & b & w1 & changes & _ & _ & Hcases)];
    [by apply elem_of_nil in Hin|].
  destruct Hcases as [(e & -> & _)|(response & -> & -> & _ & Hcommit)].
  { apply list_elem_of_singleton in Hin as ->. done. }
  apply elem_of_cons in Hin as [->|Hin]; [done|].
  eexists _, response. split; [done|].
  split; [rewrite !elem_of_app; right; right; by left|]. split; [done|].
  unfold warning in Hin.
  destruct (CommitResponse.pathsToRejectedChanges response) as [|p rest];
    simpl in Hin; [by apply elem_of_nil in Hin|].
  by apply list_elem_of_singleton in Hin.
Qed.

(** X9.  [createCommit] itself never shows a toast, and it shows an error
    only as the warning about rejected paths: in a run that ended well, as
    the last thing it does, right after a commit call that resolved with a
    non-empty list of rejected paths. *)
Theorem only_rejected_paths_are_reported (stackId : option string) (message : string)
    (w w' : World TreeChange) (r : Result unit) (calls : list (Event TreeChange))
    (ev : Event TreeChange) :
  createCommit srv projectId stackId message w = (r, w') →
  trace w' = trace w ++ calls →
  ev ∈ calls →
  isNotification ev →
  ∃ req response before,
    r = Ok tt ∧
    calls = before ++ [CreateCommitCall req; ev] ∧
    createCommitInStack srv req = Ok response ∧
    CommitResponse.pathsToRejectedChanges response ≠ [] ∧
    ev = ShowError rejectedTitle
           (Text (rejectedText (CommitResponse.pathsToRejectedChanges response))).
Proof.
  intros Hrun Htrace Hin Hnote.
  destruct (run_notifications _ _ _ _ _ _ _ Hrun Htrace Hin Hnote)
    as (req & response & -> & Hreq & Hcommit & Hrejected & ->).
  destruct (run_commit_call _ _ _ _ _ _ _ Hrun Htrace Hreq)
    as (s & b & w1 & changes & lookups & _ & _ & _
        & [(e & Hr & _)|(response' & _ & _ & Hcommit' & Hcalls)]); [done|].
  rewrite Hcommit in Hcommit'. injection Hcommit' as <-.
  eexists req, response, _. split; [done|]. split; [|done].
  rewrite Hcalls, !app_assoc. f_equal. unfold warning.
  by destruct (CommitResponse.pathsToRejectedChanges response).
Qed.

(** X10.  [handleCommitCreation] never throws, whatever the message and
    whatever the collaborators do.  With a non-empty message it shows
    "Failed to commit" exactly when [createCommit] threw, with the thrown
    error, as the last thing it does. *)
Theorem handler_reports_failures (stackId : option string) (message : option string)
    (w : World TreeChange) :
  (handleCommitCreation srv projectId stackId message w).1 = Ok tt ∧
  ∀ m calls,
    message = Some m → m ≠ "" →
    trace (handleCommitCreation srv projectId stackId message w).2 = trace w ++ calls →
    (∀ e w1, createCommit srv projectId stackId m w = (Throw e, w1) →
       (handleCommitCreation srv projectId stackId message w).2 =
         emits [ShowError "Failed to commit" (Caught e)] w1) ∧
    (∀ detail, ShowError "Failed to commit" detail ∈ calls →
       ∃ e w1, createCommit srv projectId stackId m w = (Throw e, w1) ∧
               detail = Caught e).
Proof.
  split.
  - unfold handleCommitCreation. destruct message as [m|]; [|done].
    destruct (truthy (Some m)); [|done]. unfold try_catch.
    by destruct (createCommit srv projectId stackId m w) as [[[]|e] w1].
  - intros m calls -> Hm. unfold handleCommitCreation.
    rewrite (proj2 (truthy_Some m) Hm). unfold try_catch.
    destruct (createCommit srv projectId stackId m w) as [[[]|e] w1] eqn:Hrun; simpl.
    + intros Htrace. split; [done|]. intros detail Hin.
      destruct (run_notifications _ _ _ _ _ _ _ Hrun Htrace Hin I)
        as (_ & _ & _ & _ & _ & _ & [=]).
    + intros Htrace. split; [by intros e' w1' [= <- <-]|]. intros detail Hin.
      destruct (run_aborted _ _ _ _ _ _ _ Hrun) as (_ & calls' & Htrace' & _).
      rewrite Htrace', <- app_assoc in Htrace. apply app_inv_head in Htrace as <-.
      apply elem_of_app in Hin as [Hin|[= ->]%list_elem_of_singleton]; [|by eauto].
      destruct (run_notifications _ _ _ _ _ _ _ Hrun Htrace' Hin I)
        as (_ & _ & [=] & _).
Qed.

(** *** When the commit action is enabled *)

(** X11.  The commit action is never enabled with an empty selection.
    Without a stack id it is enabled exactly when something is selected and
    the draft branch name is non-empty; with a stack id, exactly when
    something is selected and one of the branch selected in the stack, its
    top branch and the draft branch name is non-empty. *)
Theorem commit_enabled (stackId : option string) (u : UiState) :
  (canCommit srv projectId stackId u = true → selectedChanges u ≠ []) ∧
  (truthy stackId = false →
     (canCommit srv projectId stackId u = true ↔
      truthy (draftBranchName u) = true ∧ selectedChanges u ≠ [])) ∧
  (∀ s, stackId = Some s → s ≠ "" →
     (canCommit srv projectId stackId u = true ↔
      (truthy (StackSelection.branchName <$> stackSelections u !! s) = true ∨
       truthy (bs ← branches srv projectId s; b ← head bs; Some (name b)) = true ∨
       truthy (draftBranchName u) = true) ∧
      selectedChanges u ≠ [])).
Proof.
  assert (Hlen : (0 <? length (selectedChanges u))%nat = true ↔ selectedChanges u ≠ []).
  { destruct (selectedChanges u); simpl; split; done. }
  unfold canCommit. rewrite andb_true_iff, Hlen. split; [tauto|]. split.
  - intros Hsid. unfold selectedBranchName, topBranchName, selection.
    destruct stackId as [s|]; rewrite ?Hsid; unfold js_or; simpl;
      destruct (truthy (draftBranchName u)) eqn:Hd; rewrite ?Hd; simpl; tauto.
  - intros s -> Hs. unfold selectedBranchName, topBranchName, selection.
    rewrite (proj2 (truthy_Some s) Hs). unfold js_or.
    destruct (truthy (StackSelection.branchName <$> stackSelections u !! s)) eqn:Hb;
      rewrite ?Hb; [tauto|].
    destruct (truthy (branches srv projectId s ≫= _)) eqn:Ht; rewrite ?Ht; [tauto|].
    destruct (truthy (draftBranchName u)) eqn:Hd; rewrite ?Hd, ?Ht; [tauto|].
    simpl. split; [done|]. intros [[?|[?|?]] _]; done.
Qed.

(** X12.  An enabled commit action does not guarantee a target.  With a
    stack id given, when neither a branch is selected in the stack nor a
    top branch is known, a non-empty draft branch name enables the action,
    yet [createCommit] ignores the draft and throws "No branch selected!"
    with nothing called and nothing written. *)
Theorem enabled_commit_without_branch (stackId : option string) (s message : string)
    (w : World TreeChange) :
  stackId = Some s → s ≠ "" →
  truthy (selectedBranchName srv projectId stackId (ui w)) = false →
  truthy (draftBranchName (ui w)) = true →
  selectedChanges (ui w) ≠ [] →
  canCommit srv projectId stackId (ui w) = true ∧
  createCommit srv projectId stackId message w = (Throw (Error "No branch selected!"), w).
Proof.
  intros -> Hs Hbranch Hdraft Hsel. split.
  - unfold canCommit, js_or at 1 2. rewrite Hbranch, !Hdraft.
    by destruct (selectedChanges (ui w)).
  - unfold createCommit, mbind, M_bind.
    rewrite (resolveTarget_explicit srv projectId (Some s) s w eq_refl Hs).
    destruct (selectedBranchName srv projectId (Some s) (ui w)) as [b|]; [|done].
    by rewrite Hbranch.
Qed.

(** *** What a run leaves alone *)

(** X13.  With a stack id given, a run never creates a stack and, however
    it ends, leaves the project's selected stack and the draft branch name
    as they were. *)
Theorem given_stack_is_kept (stackId : option string) (message : string)
    (w w' : World TreeChange) (r : Result unit) (calls : list (Event TreeChange)) :
  truthy stackId = true →
  createCommit srv projectId stackId message w = (r, w') →
  trace w' = trace w ++ calls →
  Forall (λ ev, ¬ isNewStackCall ev) calls ∧
  projectStackId (ui w') = projectStackId (ui w) ∧
  draftBranchName (ui w') = draftBranchName (ui w).
Proof.
  intros Hsid Hrun Htrace.
  destruct (run_calls _ _ _ _ _ Hrun) as (lookups & tail & Htrace' & Hl & Htail).
  rewrite Htrace, Hsid in Htrace'. apply app_inv_head in Htrace' as ->. simpl.
  assert (Hui : ui (resolveTarget srv projectId stackId w).2 = ui w).
  { destruct (resolveTarget srv projectId stackId w) as [r1 w1] eqn:Hres.
    destruct (resolveTarget_calls _ _ _ _ Hres) as (Hsame & _).
    by rewrite Hsame. }
  split.
  - apply Forall_app. split.
    + eapply Forall_impl; [done|]. intros []; simpl; tauto.
    + destruct Htail as [[-> _]|(s & b & w1 & changes & _ & _ & Hcases)];
        [constructor|].
      destruct Hcases as [(e & -> & _)|(response & -> & _)].
      * constructor; [simpl; tauto|constructor].
      * constructor; [simpl; tauto|]. unfold warning.
        destruct (0 <? _)%nat; constructor; [simpl; tauto|constructor].
  - destruct r as [[]|e].
    + destruct Htail as [[_ [e He]]|(s & b & w1 & changes & Hres & _ & Hcases)];
        [done|].
      destruct Hcases as [(e & _ & He & _)|(response & _ & _ & -> & _)]; [done|].
      rewrite Hres in Hui. simpl in *. by rewrite Hui.
    + destruct (run_aborted _ _ _ _ _ _ _ Hrun) as (-> & _). by rewrite Hui.
Qed.

(** X14.  A run writes the selection of no stack but the one it commits
    to: the selection of every other stack, and of every stack when no
    commit call is made, is what it was. *)
Theorem other_selections_are_kept (stackId : option string) (message : string)
    (w w' : World TreeChange) (r : Result unit) (calls : list (Event TreeChange))
    (other : string) :
  createCommit srv projectId stackId message w = (r, w') →
  trace w' = trace w ++ calls →
  (∀ req, CreateCommitCall req ∈ calls → CommitRequest.stackId req ≠ other) →
  stackSelections (ui w') !! other = stackSelections (ui w) !! other.
Proof.
  intros Hrun Htrace Hother.
  destruct r as [[]|e].
  2: { destruct (run_aborted _ _ _ _ _ _ _ Hrun) as (-> & _).
       destruct (resolveTarget srv projectId stackId w) as [r1 w1] eqn:Hres. simpl.
       by destruct (resolveTarget_frame _ _ _ _ _ _ Hres) as (_ & _ & _ & _ & _ & ->). }
  destruct (run_calls _ _ _ _ _ Hrun) as (lookups & tail & Htrace' & Hl & Htail).
  rewrite Htrace in Htrace'. apply app_inv_head in Htrace' as ->.
  destruct Htail as [[_ [e He]]|(s & b & w1 & changes & Hres & _ & Hcases)]; [done|].
  destruct Hcases as [(e & _ & He & _)|(response & -> & _ & -> & _)]; [done|].
  destruct (resolveTarget_frame _ _ _ _ _ _ Hres) as (_ & _ & _ & _ & _ & Hsel).
  simpl. rewrite lookup_insert_ne, Hsel; [done|].
  apply (Hother (commitRequest projectId stackId message s b changes (ui w1))).
  rewrite !elem_of_app. right. right. by left.
Qed.

(** X16.  A run of [createCommit] ends without an error exactly when the
    target resolves, the selection flattens and the commit call for that
    target and those entries resolves: nothing after the commit call can
    fail, whatever the response holds. *)
Theorem commit_succeeds_exactly_when (stackId : option string) (message : string)
    (w : World TreeChange) :
  (createCommit srv projectId stackId message w).1 = Ok tt ↔
  ∃ s b w1 changes lookups response,
    resolveTarget srv projectId stackId w = (Ok (s, b), w1) ∧
    forItems srv projectId (selectedChanges (ui w)) [] = (Ok changes, lookups) ∧
    createCommitInStack srv (commitRequest projectId stackId message s b changes (ui w1))
      = Ok response.
Proof.
  split.
  - destruct (createCommit srv projectId stackId message w) as [r w'] eqn:Hrun.
    simpl. intros ->.
    destruct (run_calls _ _ _ _ _ Hrun)
      as (lookups & tail & _ & _ & [[_ [e He]]|(s & b & w1 & changes & Hres & Hflat & Hcases)]);
      [done|].
    destruct Hcases as [(e & _ & He & _)|(response & _ & _ & _ & Hcommit)]; [done|].
    by exists s, b, w1, changes, lookups, response.
  - intros (s & b & w1 & changes & lookups & response & Hres & Hflat & Hcommit).
    destruct (resolveTarget_frame _ _ _ _ _ _ Hres) as (_ & Hsel & _).
    unfold createCommit, mbind, M_bind. rewrite Hres.
    unfold flattenSelection, mbind, M_bind, gets, perform. rewrite Hsel, Hflat. simpl.
    unfold commitChanges, mbind, M_bind, gets, perform, await, modify, notify,
      mret, M_ret. simpl.
    fold (commitRequest projectId stackId message s b changes (ui w1)).
    rewrite Hcommit. simpl.
    by destruct (0 <? length (CommitResponse.pathsToRejectedChanges response))%nat.
Qed.

End AssemblerFurther.

(** ** The review button *)

Lemma interactions_app (action : Action) (before after : list Interaction) :
  interactions action (before ++ after) =
    match interactions action before with
    | (action', calls) =>
        match interactions action' after with
        | (final, calls') => (final, calls ++ calls')
        end
    end.
Proof.
  revert action. induction before as [|i rest IH]; intros action; simpl.
  - by destruct (interactions action after).
  - destruct (interact action i) as [action' calls]. rewrite IH.
    destruct (interactions action' rest) as [action'' calls'].
    destruct (interactions action'' after) as [final calls''].
    by rewrite app_assoc.
Qed.

Lemma interactions_store (action : Action) (steps : list Interaction) :
  (interactions action steps).1 = default action (last (choices steps)).
Proof.
  revert action. induction steps as [|i rest IH]; intros action; simpl; [done|].
  destruct i as [a|]; simpl.
  - specialize (IH a). destruct (interactions a rest) as [final calls]. simpl in *.
    fold (choices rest). rewrite last_cons, IH. by destruct (last (choices rest)).
  - specialize (IH action). by destruct (interactions action rest) as [final calls].
Qed.

Lemma interactions_calls (action : Action) (steps : list Interaction) :
  length (interactions action steps).2 = presses steps.
Proof.
  revert action. induction steps as [|i rest IH]; intros action; simpl; [done|].
  destruct i as [a|]; simpl.
  - specialize (IH a). by destruct (interactions a rest) as [final calls].
  - specialize (IH action). destruct (interactions action rest) as [final calls].
    simpl in *. unfold presses. simpl. by f_equal.
Qed.

(** X15.  Every press of the review button calls [onclick] once, with the
    menu item picked last before that press, or with the action the store
    held at the start when none was picked; picking an item calls
    nothing. *)
Theorem press_hands_over_last_choice (action : Action)
    (before after : list Interaction) :
  length (interactions action (before ++ PressButton :: after)).2 =
    S (presses before + presses after) ∧
  (interactions action (before ++ PressButton :: after)).2 !! presses before =
    Some (default action (last (choices before))).
Proof.
  rewrite interactions_app.
  pose proof (interactions_store action before) as Hstore.
  pose proof (interactions_calls action before) as Hcalls.
  destruct (interactions action before) as [action' calls]. simpl in *.
  pose proof (interactions_calls action' after) as Hcalls'.
  destruct (interactions action' after) as [final calls']. simpl in *.
  rewrite length_app. simpl. split; [lia|].
  rewrite <- Hcalls, <- Hstore.
  by rewrite lookup_app_r, Nat.sub_diag.
Qed.

(** ** Further scenarios, run *)

(** Scenarios A and B together: nothing is partially selected. *)
Lemma flattening_without_lookups_witness :
  flattenSelection bareServices "p" (demoWorld (scenarioA ++ scenarioB)) =
    (Ok [ {| WorktreeChanges.pathBytes := [5%Z];
             WorktreeChanges.previousPathBytes := None;
             WorktreeChanges.hunkHeaders := [] |};
          {| WorktreeChanges.pathBytes := [5%Z];
             WorktreeChanges.previousPathBytes := None;
             WorktreeChanges.hunkHeaders := [coordinates 1 5 1 6] |} ],
     demoWorld (scenarioA ++ scenarioB)).
Proof.
  apply (flattening_without_lookups bareServices "p" (demoWorld (scenarioA ++ scenarioB))).
  repeat constructor.
Defined.

(** Scenario D: the second file fails at its only hunk. *)
Lemma flattening_fails_at_first_failure_witness :
  ∃ before item after changes callss fcalls,
    scenarioD = before ++ item :: after ∧
    Forall3 (fileYields (demoServices []) "p") before changes callss ∧
    fileFails (demoServices []) "p" item (Error "Hunk not found while commiting") fcalls ∧
    emits [FetchChangeCall "p" "fileC"; FetchDiffCall "p" "fileC"] (demoWorld scenarioD) =
      emits (concat callss ++ fcalls) (demoWorld scenarioD).
Proof.
  apply (proj1 (flattening_fails_at_first_failure (demoServices []) "p"
                  (demoWorld scenarioD) _ _)).
  reflexivity.
Defined.

(** Scenario C has one partially selected hunk. *)
Lemma flattening_fetches_per_partial_hunk_witness :
  ∃ lookups,
    Forall2 (λ (ph : string * SelectedHunk) calls,
               ∃ change, fetchChange (demoServices []) "p" ph.1 = Ok (Some change) ∧
                 calls = [FetchChangeCall "p" ph.1; FetchDiffCall "p" change])
            (partialHunks scenarioC) lookups ∧
    emits [FetchChangeCall "p" "fileC"; FetchDiffCall "p" "fileC"] (demoWorld scenarioC) =
      emits (concat lookups) (demoWorld scenarioC) ∧
    length (trace (emits [FetchChangeCall "p" "fileC"; FetchDiffCall "p" "fileC"]
                     (demoWorld scenarioC))) =
      (length (trace (demoWorld scenarioC)) + 2 * length (partialHunks scenarioC))%nat.
Proof.
  apply (flattening_fetches_per_partial_hunk (demoServices []) "p"
           (demoWorld scenarioC)
           (emits [FetchChangeCall "p" "fileC"; FetchDiffCall "p" "fileC"]
              (demoWorld scenarioC))
           scenarioCChanges).
  reflexivity.
Defined.

(** The second hunk of the demo patch, looked up by its own coordinates. *)
Lemma current_hunk_is_found_witness :
  ∃ found,
    findHunkDiff (demoServices []) "p" "fileC"
      (HunkPartial (coordinates 10 4 10 4) demoLines) =
      (Ok (Some found), [FetchChangeCall "p" "fileC"; FetchDiffCall "p" "fileC"]) ∧
    found ∈ demoHunks ∧
    header found = coordinates 10 4 10 4 ∧
    (NoDup (header <$> demoHunks) →
     found = {| header := coordinates 10 4 10 4; diff := "@@ -10,4 +10,4 @@" |}).
Proof.
  apply (current_hunk_is_found (demoServices []) "p" "fileC" "fileC" demoHunks
           {| header := coordinates 10 4 10 4; diff := "@@ -10,4 +10,4 @@" |} demoLines).
  - reflexivity.
  - reflexivity.
  - apply elem_of_cons. right. apply list_elem_of_singleton. reflexivity.
Defined.

(** Scenario C committed on a new stack: the request has no parent. *)
Lemma commit_request_contents_witness :
  CommitRequest.projectId (scenarioRequest "msg") = "p" ∧
  CommitRequest.message (scenarioRequest "msg") = "msg" ∧
  (∃ w1, resolveTarget (demoServices []) "p" None (demoWorld scenarioC) =
           (Ok ("stack-1", "draft"), w1)) ∧
  (∃ callss, Forall3 (fileYields (demoServices []) "p") scenarioC scenarioCChanges callss) ∧
  (truthy None = false → CommitRequest.parentId (scenarioRequest "msg") = None) ∧
  (∀ s, None = Some s → s ≠ "" →
     CommitRequest.stackId (scenarioRequest "msg") = s ∧
     CommitRequest.parentId (scenarioRequest "msg") =
       stackSelections (ui (demoWorld scenarioC)) !! s ≫= StackSelection.commitId).
Proof.
  apply (commit_request_contents (demoServices []) "p" None "msg" (demoWorld scenarioC)
           (createCommit (demoServices []) "p" None "msg" (demoWorld scenarioC)).2
           (Ok tt) (scenarioCalls "msg") (scenarioRequest "msg")).
  - reflexivity.
  - reflexivity.
  - do 3 (apply elem_of_cons; right). apply list_elem_of_singleton. reflexivity.
Defined.

(** Scenario E, call by call. *)
Lemma calls_in_order_witness :
  ∃ lookups tail,
    trace (createCommit (demoServices [("locked", "fileD")]) "p" None "msg"
             (demoWorld scenarioC)).2 =
      trace (demoWorld scenarioC) ++
      [NewStackCall {| NewStackRequest.projectId := "p";
                       NewStackRequest.branchName := Some "draft" |}]
      ++ lookups ++ tail ∧
    Forall isLookup lookups ∧
    (tail = [] ∨
     ∃ req, tail = [CreateCommitCall req] ∨
       ∃ rejected, rejected ≠ [] ∧
         tail = [CreateCommitCall req;
                 ShowError rejectedTitle (Text (rejectedText rejected))]).
Proof.
  apply (calls_in_order (demoServices [("locked", "fileD")]) "p" None "msg"
           (demoWorld scenarioC) _ (Ok tt)).
  reflexivity.
Defined.

(** No stack id, and a backend that cannot create a stack. *)
Lemma stack_creation_rejected_witness :
  createCommit bareServices "p" None "msg" (demoWorld scenarioC) =
    (Throw (Error "no stack for you"),
     {| ui := ui (demoWorld scenarioC);
        trace := [NewStackCall {| NewStackRequest.projectId := "p";
                                  NewStackRequest.branchName := Some "draft" |}] |}).
Proof.
  apply (stack_creation_rejected bareServices "p" None "msg" (demoWorld scenarioC)
           (Error "no stack for you")); reflexivity.
Defined.

(** Scenario E: the one notification of the run. *)
Lemma only_rejected_paths_are_reported_witness :
  ∃ req response before,
    Ok tt = Ok tt ∧
    scenarioCalls "msg" ++
      [ShowError rejectedTitle (Text (rejectedText [("locked", "fileD")]))] =
      before ++ [CreateCommitCall req;
                 ShowError rejectedTitle (Text (rejectedText [("locked", "fileD")]))] ∧
    createCommitInStack (demoServices [("locked", "fileD")]) req = Ok response ∧
    CommitResponse.pathsToRejectedChanges response ≠ [] ∧
    @ShowError string rejectedTitle (Text (rejectedText [("locked", "fileD")])) =
      ShowError rejectedTitle
        (Text (rejectedText (CommitResponse.pathsToRejectedChanges response))).
Proof.
  apply (only_rejected_paths_are_reported (demoServices [("locked", "fileD")]) "p" None
           "msg" (demoWorld scenarioC)
           (createCommit (demoServices [("locked", "fileD")]) "p" None "msg"
              (demoWorld scenarioC)).2
           (Ok tt)).
  - reflexivity.
  - reflexivity.
  - do 4 (apply elem_of_cons; right). apply list_elem_of_singleton. reflexivity.
  - exact I.
Defined.

(** The backend refuses the commit: the handler reports it. *)
Lemma handler_reports_failures_witness :
  (handleCommitCreation (demoServices []) "p" None (Some "boom") (demoWorld scenarioC)).1
    = Ok tt ∧
  (handleCommitCreation (demoServices []) "p" None (Some "boom") (demoWorld scenarioC)).2 =
    emits [ShowError "Failed to commit" (Caught (Error "backend refused"))]
      (createCommit (demoServices []) "p" None "boom" (demoWorld scenarioC)).2.
Proof.
  destruct (handler_reports_failures (demoServices []) "p" None (Some "boom")
              (demoWorld scenarioC)) as (Hok & Hreport).
  split; [exact Hok|].
  destruct (Hreport "boom"
              (scenarioCalls "boom" ++
                 [ShowError "Failed to commit" (Caught (Error "backend refused"))])
              eq_refl ltac:(discriminate) eq_refl) as (Hthrown & _).
  apply Hthrown. reflexivity.
Defined.

(** Without a stack id the demo world, with its draft name, enables the
    action as soon as something is selected. *)
Lemma commit_enabled_witness :
  canCommit (demoServices []) "p" None (ui (demoWorld scenarioC)) = true ∧
  selectedChanges (ui (demoWorld scenarioC)) ≠ [].
Proof.
  destruct (commit_enabled (demoServices []) "p" None (ui (demoWorld scenarioC)))
    as (Hnonempty & Hnone & _).
  assert (Henabled : canCommit (demoServices []) "p" None (ui (demoWorld scenarioC)) = true).
  { apply (Hnone eq_refl). split; [reflexivity|discriminate]. }
  split; [exact Henabled|exact (Hnonempty Henabled)].
Defined.

(** A stack without a selection and without a known branch. *)
Lemma enabled_commit_without_branch_witness :
  canCommit bareServices "p" (Some "stack-9") (ui (demoWorld scenarioC)) = true ∧
  createCommit bareServices "p" (Some "stack-9") "msg" (demoWorld scenarioC) =
    (Throw (Error "No branch selected!"), demoWorld scenarioC).
Proof.
  apply (enabled_commit_without_branch bareServices "p" (Some "stack-9") "stack-9" "msg"
           (demoWorld scenarioC)); try reflexivity; discriminate.
Defined.

(** Scenario C committed to the given stack. *)
Lemma given_stack_is_kept_witness :
  Forall (λ ev : Event string, ¬ isNewStackCall ev)
    (drop 1 (scenarioCalls "msg") ++ []) ∧
  projectStackId
    (ui (createCommit (demoServices []) "p" (Some "stack-0") "msg" (demoWorld scenarioC)).2)
    = None ∧
  draftBranchName
    (ui (createCommit (demoServices []) "p" (Some "stack-0") "msg" (demoWorld scenarioC)).2)
    = Some "draft".
Proof.
  destruct (given_stack_is_kept (demoServices []) "p" (Some "stack-0") "msg"
              (demoWorld scenarioC) _ (Ok tt)
              [FetchChangeCall "p" "fileC"; FetchDiffCall "p" "fileC";
               CreateCommitCall
                 {| CommitRequest.projectId := "p";
                    CommitRequest.stackId := "stack-0";
                    CommitRequest.parentId := Some "abc";
                    CommitRequest.message := "msg";
                    CommitRequest.stackBranchName := "feature";
                    CommitRequest.worktreeChanges := scenarioCChanges |}]
              eq_refl eq_refl eq_refl) as (_ & Hstack & Hdraft).
  split; [|split; [exact Hstack|exact Hdraft]].
  repeat constructor; simpl; tauto.
Defined.

(** Scenario C committed on a new stack: the selection of the old stack
    stays. *)
Lemma other_selections_are_kept_witness :
  stackSelections
    (ui (createCommit (demoServices []) "p" None "msg" (demoWorld scenarioC)).2)
    !! "stack-0" =
  Some {| StackSelection.branchName := "feature"; StackSelection.commitId := Some "abc" |}.
Proof.
  apply (other_selections_are_kept (demoServices []) "p" None "msg" (demoWorld scenarioC)
           _ (Ok tt) (scenarioCalls "msg") "stack-0").
  - reflexivity.
  - reflexivity.
  - intros req Hin. unfold scenarioCalls in Hin.
    rewrite !elem_of_cons, elem_of_nil in Hin.
    destruct Hin as [Hin|[Hin|[Hin|[Hin|[]]]]]; try discriminate Hin.
    injection Hin as ->. discriminate.
Defined.

(** Scenario C on the given stack: target, entries and commit all go
    through. *)
Lemma commit_succeeds_exactly_when_witness :
  (createCommit (demoServices []) "p" (Some "stack-0") "msg" (demoWorld scenarioC)).1
    = Ok tt.
Proof.
  apply (proj2 (commit_succeeds_exactly_when (demoServices []) "p" (Some "stack-0") "msg"
                  (demoWorld scenarioC))).
  exists "stack-0", "feature", (demoWorld scenarioC), scenarioCChanges,
         [FetchChangeCall "p" "fileC"; FetchDiffCall "p" "fileC"],
         {| CommitResponse.newCommit := "c0ffee";
            CommitResponse.pathsToRejectedChanges := [] |}.
  repeat split; reflexivity.
Defined.
